(** * Specific surface from grain-size statistics

    A shallow embedding of the notebook
    [estimate_specific_surface_from_gs_stats.ipynb]:

    - [calculate_specific_surface_discrete] (cell 6),
    - [generate_gs_distributions] (cell 8),
    - the loop over [df.index] (cell 12),
    - the names of the files written (cells 14 and 17).

    The notebook computes on NumPy [float64] arrays.  The program is written
    once over a [Numeric] interface (the scalar arithmetic and the four library
    calls [np.arange], [10 ** x], [scipy.stats.norm.cdf] and [ndarray.sum]) and
    read at the instance [F64]: IEEE-754 binary64, bit for bit, on Rocq's
    primitive floats; the SciPy/NumPy functions whose results depend on the C
    library are taken as parameters. *)

From Stdlib Require Import String ZArith List Bool Lia.
From Stdlib Require Import Floats.
From Stdlib Require Uint63.
Import ListNotations.

(* decimal literals denote the nearest binary64 value, as in Python *)
Set Warnings "-inexact-float".

(** ** Python exceptions that the modelled code can raise *)

Inductive exn : Type :=
| ZeroDivisionError   (* float division by zero *)
| ValueError          (* operands could not be broadcast together *)
| TypeError.          (* arithmetic on a non-numeric cell *)

Inductive result (A : Type) : Type :=
| Ok (a : A)
| Raise (e : exn).

Arguments Ok {A} a.
Arguments Raise {A} e.

Definition bind {A B} (r : result A) (k : A -> result B) : result B :=
  match r with
  | Ok a => k a
  | Raise e => Raise e
  end.

Notation "x <- r ;; k" := (bind r (fun x => k))
  (at level 61, r at next level, right associativity).

(** ** The numeric interface *)

Class Numeric : Type := {
  num : Type;
  (** the decimal literal [m * 10^e] as Python reads it *)
  dec : Z -> Z -> num;
  nadd : num -> num -> num;
  nsub : num -> num -> num;
  nmul : num -> num -> num;
  ndiv : num -> num -> num;
  (** [x < y] and [x == 0] *)
  nltb : num -> num -> bool;
  nzerob : num -> bool;
  (** [np.arange(start, stop, step)] *)
  np_arange : num -> num -> num -> list num;
  (** [10 ** x], one element *)
  pow10 : num -> num;
  (** [scipy.stats.norm.cdf(x, loc, scale)], one element *)
  norm_cdf : num -> num -> num -> num;
  (** [a.sum()] *)
  np_sum : list num -> num
}.

Declare Scope num_scope.
Delimit Scope num_scope with num.
Infix "+" := nadd : num_scope.
Infix "-" := nsub : num_scope.
Infix "*" := nmul : num_scope.
Infix "/" := ndiv : num_scope.
Infix "<?" := nltb : num_scope.

(** ** NumPy array operations used by the notebook, on lists *)

Section Arrays.
Context {A B C : Type}.

  (** an elementwise operation on two arrays of one shape *)
Fixpoint zip_with (f : A -> B -> C) (a : list A) (b : list B) : list C :=
    match a, b with
    | x :: a', y :: b' => f x y :: zip_with f a' b'
    | _, _ => []
    end.

Lemma zip_with_length f a b :
    length (zip_with f a b) = Nat.min (length a) (length b).
Proof.
    revert b; induction a as [|x a IH]; intros [|y b]; simpl; auto.
Qed.

Lemma zip_with_nth f a b i da db dc :
    i < length a -> i < length b ->
    nth i (zip_with f a b) dc = f (nth i a da) (nth i b db).
Proof.
    revert b i; induction a as [|x a IH]; intros [|y b] [|i]; simpl;
      try lia; auto.
    intros; apply IH; lia.
Qed.
End Arrays.

Section Slices.
Context {A : Type}.

  (** [a[1:] = v], for [v] of the shape of [a[1:]] *)
Definition set_tail (a v : list A) : list A :=
    match a with
    | [] => []
    | x :: _ => x :: v
    end.

  (** [a[mask] = c] *)
Definition mask_assign (a : list A) (mask : list bool) (c : A) : list A :=
    zip_with (fun x (m : bool) => if m then c else x) a mask.

Lemma removelast_length (a : list A) :
    length (removelast a) = Nat.pred (length a).
Proof.
    induction a as [|x [|y a] IH]; simpl in *; auto.
Qed.

Lemma removelast_nth (a : list A) i d :
    S i < length a -> nth i (removelast a) d = nth i a d.
Proof.
    revert i; induction a as [|x [|y a] IH]; intros i Hi; simpl in *; try lia.
    destruct i as [|i]; auto.
    apply IH; lia.
Qed.

Lemma tl_nth (a : list A) i d : nth i (tl a) d = nth (S i) a d.
Proof. destruct a; simpl; auto. destruct i; auto. Qed.

Lemma tl_length (a : list A) : length (tl a) = Nat.pred (length a).
Proof. destruct a; auto. Qed.
End Slices.

(** ** The notebook's functions *)

Section Notebook.
Context {N : Numeric}.
Local Open Scope num_scope.

Definition ndarray := list num.

  (** [a / b] on arrays, with NumPy's broadcasting of one-dimensional shapes *)
Definition np_divide (a b : ndarray) : result ndarray :=
    if Nat.eqb (length a) (length b) then Ok (zip_with ndiv a b)
    else if Nat.eqb (length a) 1 then Ok (map (fun y => hd (dec 0 0) a / y) b)
    else if Nat.eqb (length b) 1 then Ok (map (fun x => x / hd (dec 0 0) b) a)
    else Raise ValueError.

  (** [6.0 / rho_s]: Python float division raises on a zero divisor *)
Definition py_float_div (x y : num) : result num :=
    if nzerob y then Raise ZeroDivisionError else Ok (x / y).

  (** cell 6:
      [ss = 6.0 / rho_s * (freq / grain_size).sum()] *)
Definition calculate_specific_surface_discrete
      (grain_size freq : ndarray) (rho_s : num) : result num :=
    k <- py_float_div (dec 6 0) rho_s ;;
    q <- np_divide freq grain_size ;;
    Ok (k * np_sum q).

  (** [np.arange(-7.0, -1, 0.01)] *)
Definition log_grid : ndarray :=
    np_arange (dec (-7) 0) (dec (-1) 0) (dec 1 (-2)).

  (** the points at which the distribution function is evaluated
      ([gs_sim], lines "grain size bins") *)
Definition gs_sim (log_transform : bool) : ndarray :=
    if log_transform then log_grid else map pow10 log_grid.

  (** [cdf_gs = scipy.stats.norm.cdf(gs_sim, gs_mean, gs_std)] *)
Definition cdf_gs (gs_mean gs_std : num) (log_transform : bool) : ndarray :=
    map (fun x => norm_cdf x gs_mean gs_std) (gs_sim log_transform).

  (** [c[1:] - c[:-1]] and friends *)
Definition diff (c : ndarray) : ndarray := zip_with nsub (tl c) (removelast c).

  (** "convert to frequency for each bin":
      [freq_gs = cdf_gs.copy(); freq_gs[1:] = cdf_gs[1:] - cdf_gs[:-1]] *)
Definition bin_frequencies (gs_mean gs_std : num) (log_transform : bool)
    : ndarray :=
    let c := cdf_gs gs_mean gs_std log_transform in
    set_tail c (diff c).

  (** "convert grainsize to real units" and "take middle of bin":
      [bins_gs[1:] = (bins_gs[1:] + bins_gs[:-1]) / 2.0].  The right-hand side
      is evaluated into a fresh array before the assignment, so it reads the
      old contents; in the linear branch [bins_gs] aliases [gs_sim], which is
      not read again. *)
Definition bin_sizes (log_transform : bool) : ndarray :=
    let b := if log_transform then map pow10 (gs_sim log_transform)
             else gs_sim log_transform in
    set_tail b
      (map (fun x => x / dec 2 0) (zip_with nadd (tl b) (removelast b))).

  (** the threshold written in "remove clay fraction" *)
Definition clay_threshold : num := dec 2 (-6).

  (** cell 8.  [log_transform is True] holds for the Boolean [True] only. *)
Definition generate_gs_distributions
      (gs_mean gs_std rho_s clay_cutoff : num) (log_transform : bool)
    : ndarray * ndarray :=
    let freq_gs := bin_frequencies gs_mean gs_std log_transform in
    let bins_gs := bin_sizes log_transform in
    let freq_gs :=
      mask_assign freq_gs (map (fun b => b <? clay_threshold) bins_gs)
                  (dec 0 0) in
    (bins_gs, freq_gs).

  (** one sample: the discretizer followed by the integrator (the body of the
      loop of cell 12 on numeric cells) *)
Definition specific_surface_of_sample
      (gs_mean gs_std rho_s clay_cutoff : num) (log_transform : bool)
    : result num :=
    let '(bins_gs, freq_gs) :=
      generate_gs_distributions gs_mean gs_std rho_s clay_cutoff log_transform in
    calculate_specific_surface_discrete bins_gs freq_gs rho_s.
End Notebook.


(** ** The binary64 instance *)

Module Float64.
Local Open Scope float_scope.

(** the libraries' functions whose values depend on the C library:
    [10 ** x], [scipy.stats.norm.cdf] and [ndarray.sum] (NumPy adds pairwise
    and in blocks, an order that is not part of its interface) *)
Record SciLib : Type := {
  lib_pow10 : float -> float;
  lib_norm_cdf : float -> float -> float -> float;
  lib_sum : list float -> float
}.

(** an integer as a float; exact below [2^53] *)
Definition of_Z (z : Z) : float :=
  match z with
  | Z0 => 0
  | Zpos _ => of_uint63 (Uint63.of_Z z)
  | Zneg p => - of_uint63 (Uint63.of_Z (Zpos p))
  end.

(** a decimal literal: the quotient of two exactly represented integers is
    rounded once, to the binary64 value nearest to the decimal *)
Definition f64_dec (m e : Z) : float :=
  match e with
  | Zneg k => of_Z m / of_Z (10 ^ Zpos k)
  | _ => of_Z (m * 10 ^ e)
  end.

(** [ceil] of a finite float, as an integer *)
Definition ceil_Z (x : float) : option Z :=
  match Prim2SF x with
  | S754_zero _ => Some 0%Z
  | S754_finite s m e =>
      match e with
      | Zneg k =>
          let d := (2 ^ Zpos k)%Z in
          Some (if s then (- (Zpos m / d))%Z else ((Zpos m + d - 1) / d)%Z)
      | _ => Some (if s then (- (Zpos m * 2 ^ e))%Z else (Zpos m * 2 ^ e)%Z)
      end
  | _ => None
  end.

(** [np.arange(start, stop, step)] on doubles: [ceil((stop - start) / step)]
    elements; the first two are [start] and [start + step], and element [i] is
    [start + i * delta] with [delta] the difference of the first two.  A
    length that is not finite is an error in NumPy; the notebook's one call
    has constant arguments. *)
Definition f64_arange (start stop step : float) : list float :=
  match ceil_Z ((stop - start) / step) with
  | Some n =>
      let next := start + step in
      let delta := next - start in
      map (fun i => match i with
                    | O => start
                    | S O => next
                    | _ => start + of_Z (Z.of_nat i) * delta
                    end)
          (seq 0 (Z.to_nat n))
  | None => []
  end.

#[export] Instance F64 (L : SciLib) : Numeric := {|
  num := float;
  dec := f64_dec;
  nadd := PrimFloat.add;
  nsub := PrimFloat.sub;
  nmul := PrimFloat.mul;
  ndiv := PrimFloat.div;
  nltb := PrimFloat.ltb;
  nzerob := fun x => x =? 0;
  np_arange := f64_arange;
  pow10 := lib_pow10 L;
  norm_cdf := lib_norm_cdf L;
  np_sum := lib_sum L
|}.

(** unfold the interface at the binary64 instance *)
Ltac f64 :=
  cbn [num dec nadd nsub nmul ndiv nltb nzerob np_arange pow10 norm_cdf np_sum
       F64] in *.

(** a summation in index order, one admissible [ndarray.sum] *)
Definition sum_in_order (a : list float) : float := fold_left PrimFloat.add a 0.

End Float64.

Import Float64.


(** ** Executable stand-ins for the library functions

    Series evaluations of [10 ** x] and of the normal distribution function in
    binary64, accurate to a few units in the last places.  They are not the C
    library's functions: they serve to run the model on concrete inputs. *)

Module Reference.
Local Open Scope float_scope.

(** [sum_{k = 0}^{n-1} x^k / k!], accumulated from the small terms up *)
Fixpoint exp_series (n : nat) (x : float) (k : float) : float :=
  match n with
  | O => 1
  | S n' => 1 + x / k * exp_series n' x (k + 1)
  end.

Definition ln2 : float := 0x1.62e42fefa39efp-1.
Definition ln10 : float := 0x1.26bb1bbb55516p+1.

(** nearest integer *)
Definition round_Z (x : float) : Z :=
  match ceil_Z (x - 0x1p-1) with Some z => z | None => 0%Z end.

Definition exp_ref (x : float) : float :=
  let k := round_Z (x / ln2) in
  let r := x - of_Z k * ln2 in
  Z.ldexp (exp_series 22 r 1) k.

Definition pow10_ref (x : float) : float := exp_ref (x * ln10).

Definition inv_sqrt_2pi : float := 0x1.9884533d43651p-2.

Definition phi (z : float) : float := inv_sqrt_2pi * exp_ref (- (z * z) / 2).

(** [sum_n z^(2n+1) / (2n+1)!!] as a nested product *)
Fixpoint cdf_series (n : nat) (z2 : float) (k : float) : float :=
  match n with
  | O => 1
  | S n' => 1 + z2 / k * cdf_series n' z2 (k + 2)
  end.

(** the continued fraction [z + 1/(z + 2/(z + 3/...))] of the upper tail *)
Fixpoint tail_cf (n : nat) (z : float) (k : float) : float :=
  match n with
  | O => z
  | S n' => z + k / tail_cf n' z (k + 1)
  end.

Definition std_cdf (z : float) : float :=
  if abs z <=? 3 then 0x1p-1 + phi z * z * cdf_series 80 (z * z) 3
  else if z <? 0 then phi z / tail_cf 80 (- z) 1
  else if 0 <? z then 1 - phi z / tail_cf 80 z 1
  else nan.

Definition norm_cdf_ref (x loc scale : float) : float :=
  if 0 <? scale then std_cdf ((x - loc) / scale) else nan.

Definition lib : SciLib := {|
  lib_pow10 := pow10_ref;
  lib_norm_cdf := norm_cdf_ref;
  lib_sum := sum_in_order
|}.
End Reference.

(** ** Shapes and entries of the discretizer's arrays, for every instance *)

Section Discretizer.
Context {N : Numeric}.
Local Open Scope num_scope.

(** the grid in linear units: [10 ** np.arange(-7.0, -1, 0.01)] *)
Definition linear_grid : ndarray := map pow10 log_grid.

Lemma gs_sim_length lt : length (gs_sim lt) = length log_grid.
Proof. destruct lt; unfold gs_sim; [reflexivity | apply length_map]. Qed.

Lemma cdf_gs_length m s lt : length (cdf_gs m s lt) = length log_grid.
Proof. unfold cdf_gs; rewrite length_map; apply gs_sim_length. Qed.

Lemma cdf_gs_nth m s lt i d :
  i < length log_grid ->
  nth i (cdf_gs m s lt) d = norm_cdf (nth i (gs_sim lt) d) m s.
Proof.
  intros Hi; unfold cdf_gs.
  rewrite (nth_indep _ d (norm_cdf d m s))
    by (rewrite length_map, gs_sim_length; exact Hi).
  apply (map_nth (fun x => norm_cdf x m s)).
Qed.

Lemma set_tail_diff_length (f : num -> num -> num) (c : ndarray) :
  length (set_tail c (zip_with f (tl c) (removelast c))) = length c.
Proof.
  destruct c as [|x c]; [reflexivity|].
  cbn [set_tail length]; rewrite zip_with_length, tl_length, removelast_length.
  cbn [length Nat.pred]; lia.
Qed.

Lemma set_tail_diff_nth (f : num -> num -> num) (c : ndarray) i d :
  i < length c ->
  nth i (set_tail c (zip_with f (tl c) (removelast c))) d =
  match i with
  | O => nth 0 c d
  | S j => f (nth i c d) (nth j c d)
  end.
Proof.
  destruct c as [|x c]; [cbn; lia|]; intros Hi.
  destruct i as [|j]; [reflexivity|].
  cbn [set_tail nth].
  rewrite (zip_with_nth _ _ _ _ d d).
  - rewrite tl_nth, removelast_nth by exact Hi. reflexivity.
  - rewrite tl_length; cbn [length Nat.pred] in *; lia.
  - rewrite removelast_length; cbn [length Nat.pred] in *; lia.
Qed.

Lemma bin_frequencies_length m s lt :
  length (bin_frequencies m s lt) = length log_grid.
Proof.
  unfold bin_frequencies, diff.
  rewrite set_tail_diff_length; apply cdf_gs_length.
Qed.

Lemma bin_frequencies_nth m s lt i d :
  i < length log_grid ->
  nth i (bin_frequencies m s lt) d =
  match i with
  | O => norm_cdf (nth 0 (gs_sim lt) d) m s
  | S j => norm_cdf (nth i (gs_sim lt) d) m s
           - norm_cdf (nth j (gs_sim lt) d) m s
  end.
Proof.
  intros Hi; unfold bin_frequencies, diff.
  rewrite set_tail_diff_nth by (rewrite cdf_gs_length; exact Hi).
  destruct i as [|j]; rewrite !cdf_gs_nth by lia; reflexivity.
Qed.

(** in both branches the sizes start from the grid in linear units *)
Lemma bin_sizes_unfold lt :
  bin_sizes lt =
  set_tail linear_grid
    (map (fun x => x / dec 2 0)
         (zip_with nadd (tl linear_grid) (removelast linear_grid))).
Proof. destruct lt; reflexivity. Qed.

Lemma linear_grid_length : length linear_grid = length log_grid.
Proof. apply length_map. Qed.

Lemma linear_grid_nth i d :
  i < length log_grid -> nth i linear_grid d = pow10 (nth i log_grid d).
Proof.
  intros Hi; unfold linear_grid.
  rewrite (nth_indep _ d (pow10 d)) by (rewrite length_map; exact Hi).
  apply map_nth.
Qed.

Lemma bin_sizes_as_diff lt :
  bin_sizes lt =
  set_tail linear_grid
    (zip_with (fun x y => (x + y) / dec 2 0)
              (tl linear_grid) (removelast linear_grid)).
Proof.
  rewrite bin_sizes_unfold; f_equal.
  generalize (tl linear_grid) (removelast linear_grid).
  induction l as [|x l IH]; intros [|y l']; cbn; auto.
  f_equal; apply IH.
Qed.

Lemma bin_sizes_length lt : length (bin_sizes lt) = length log_grid.
Proof.
  rewrite bin_sizes_as_diff, set_tail_diff_length; apply linear_grid_length.
Qed.

Lemma bin_sizes_nth lt i d :
  i < length log_grid ->
  nth i (bin_sizes lt) d =
  match i with
  | O => pow10 (nth 0 log_grid d)
  | S j => (pow10 (nth i log_grid d) + pow10 (nth j log_grid d)) / dec 2 0
  end.
Proof.
  intros Hi; rewrite bin_sizes_as_diff.
  rewrite set_tail_diff_nth by (rewrite linear_grid_length; exact Hi).
  destruct i as [|j]; rewrite !linear_grid_nth by lia; reflexivity.
Qed.

Lemma mask_assign_length (a : ndarray) (mask : list bool) c :
  length mask = length a -> length (mask_assign a mask c) = length a.
Proof. intros H; unfold mask_assign; rewrite zip_with_length; lia. Qed.

Lemma mask_assign_nth (a : ndarray) (mask : list bool) c i d :
  i < length a -> length mask = length a ->
  nth i (mask_assign a mask c) d = if nth i mask false then c else nth i a d.
Proof.
  intros Hi Hm; unfold mask_assign.
  rewrite (zip_with_nth _ _ _ _ d false) by lia. reflexivity.
Qed.

Lemma generate_sizes m s rho cut lt :
  fst (generate_gs_distributions m s rho cut lt) = bin_sizes lt.
Proof. reflexivity. Qed.

Lemma generate_freq_length m s rho cut lt :
  length (snd (generate_gs_distributions m s rho cut lt)) = length log_grid.
Proof.
  cbn [generate_gs_distributions snd].
  rewrite mask_assign_length; rewrite ?length_map, ?bin_sizes_length;
    rewrite bin_frequencies_length; reflexivity.
Qed.

Lemma generate_freq_nth m s rho cut lt i d :
  i < length log_grid ->
  nth i (snd (generate_gs_distributions m s rho cut lt)) d =
  if nth i (bin_sizes lt) d <? clay_threshold then dec 0 0
  else nth i (bin_frequencies m s lt) d.
Proof.
  intros Hi; cbn [generate_gs_distributions snd].
  rewrite mask_assign_nth;
    rewrite ?length_map, ?bin_sizes_length, ?bin_frequencies_length; auto.
  rewrite (nth_indep _ false (d <? clay_threshold))
    by (rewrite length_map, bin_sizes_length; exact Hi).
  rewrite (map_nth (fun b => b <? clay_threshold)). reflexivity.
Qed.

End Discretizer.

(** ** Facts on binary64 comparisons *)

Section FloatFacts.
Local Open Scope float_scope.

Lemma Prim2SF_zero : Prim2SF 0 = S754_zero false.
Proof. reflexivity. Qed.

Lemma pos_nonzero x : (0 <? x) = true -> (x =? 0) = false.
Proof.
  rewrite ltb_spec, eqb_spec, Prim2SF_zero.
  destruct (Prim2SF x) as [s|s| |s m e]; try destruct s; cbn; congruence.
Qed.

Lemma Prim2SF_infinity : Prim2SF infinity = S754_infinity false.
Proof. reflexivity. Qed.

Lemma zero_spec x : (x =? 0) = true <-> exists s, Prim2SF x = S754_zero s.
Proof.
  rewrite eqb_spec, Prim2SF_zero.
  destruct (Prim2SF x) as [s|s| |s m e]; cbn; split;
    try destruct s; try congruence; eauto;
    intros [s' H]; congruence.
Qed.

Lemma pos_spec x :
  (0 <? x) = true ->
  Prim2SF x = S754_infinity false \/ exists m e, Prim2SF x = S754_finite false m e.
Proof.
  rewrite ltb_spec, Prim2SF_zero.
  destruct (Prim2SF x) as [s|s| |s m e]; try destruct s; cbn; try congruence;
    eauto.
Qed.

Lemma finite_spec x :
  is_finite x = true ->
  (exists s, Prim2SF x = S754_zero s) \/ exists s m e, Prim2SF x = S754_finite s m e.
Proof.
  unfold is_finite, is_nan, is_infinity.
  rewrite !eqb_spec, abs_spec, Prim2SF_infinity.
  destruct (Prim2SF x) as [s|s| |s m e]; try destruct s; cbn; try congruence;
    eauto.
Qed.

Lemma div_zero_pos x s :
  (x =? 0) = true -> (0 <? s) = true -> (x / s =? 0) = true.
Proof.
  intros Hx Hs. apply zero_spec in Hx. destruct Hx as [sx Hx].
  apply zero_spec. rewrite div_spec, Hx.
  destruct (pos_spec _ Hs) as [H|(m & e & H)]; rewrite H; cbn; eauto.
Qed.

Lemma mul_finite_zero k z :
  is_finite k = true -> (z =? 0) = true -> (k * z =? 0) = true.
Proof.
  intros Hk Hz. apply zero_spec in Hz. destruct Hz as [sz Hz].
  apply zero_spec. rewrite mul_spec, Hz.
  destruct (finite_spec _ Hk) as [[s H]|(s & m & e & H)]; rewrite H; cbn; eauto.
Qed.

Lemma fold_add_zeros a acc :
  (acc =? 0) = true -> Forall (fun x => (x =? 0) = true) a ->
  (fold_left PrimFloat.add a acc =? 0) = true.
Proof.
  revert acc.
  induction a as [|x a IH]; intros acc Hacc Ha; cbn [fold_left]; [exact Hacc|].
  inversion Ha as [|? ? Hx Ha']; subst.
  apply IH; [|exact Ha'].
  apply zero_spec in Hacc; destruct Hacc as [s1 H1].
  apply zero_spec in Hx; destruct Hx as [s2 H2].
  apply zero_spec. rewrite add_spec, H1, H2.
  destruct s1, s2; cbn; eauto.
Qed.

(** the sum in index order of an array of zeros is a zero *)
Lemma sum_in_order_zeros a :
  Forall (fun x => (x =? 0) = true) a -> (sum_in_order a =? 0) = true.
Proof. apply fold_add_zeros; reflexivity. Qed.

End FloatFacts.

(** ** The surface integrator *)

Section Integrator.
Variable L : SciLib.
Local Open Scope float_scope.

(** the formula of the specification, read index by index:
    [6 / solidDensity * sum_i massFractions[i] / sizes[i]] *)
Definition spec_specific_surface
    (sizes massFractions : list float) (solidDensity : float) : float :=
  6 / solidDensity *
  lib_sum L (map (fun i => nth i massFractions 0 / nth i sizes 0)
                 (seq 0 (length sizes))).

Lemma zip_with_by_index (f : float -> float -> float) a b :
  length a = length b ->
  zip_with f a b = map (fun i => f (nth i a 0) (nth i b 0)) (seq 0 (length b)).
Proof.
  intros H.
  apply (nth_ext _ _ 0 (f 0 0)).
  - rewrite zip_with_length, length_map, length_seq; lia.
  - intros i Hi. rewrite zip_with_length in Hi.
    rewrite (zip_with_nth _ _ _ _ 0 0) by lia.
    rewrite (nth_indep _ (f 0 0) (f (nth 0 a 0) (nth 0 b 0)))
      by (rewrite length_map, length_seq; lia).
    rewrite (map_nth (fun i => f (nth i a 0) (nth i b 0)) (seq 0 (length b)) 0%nat i).
    rewrite seq_nth by lia. reflexivity.
Qed.

(** C3: on arrays of one length and a positive density the integrator returns
    [6 / solidDensity] times the sum of [massFractions[i] / sizes[i]]. *)
Theorem integrator_computes_spec_formula
    (sizes massFractions : list float) (solidDensity : float) :
  length massFractions = length sizes ->
  (0 <? solidDensity) = true ->
  calculate_specific_surface_discrete (N := F64 L)
    sizes massFractions solidDensity
  = Ok (spec_specific_surface sizes massFractions solidDensity).
Proof.
  intros Hlen Hpos.
  unfold calculate_specific_surface_discrete, py_float_div, np_divide; f64.
  rewrite (pos_nonzero _ Hpos); cbn [bind].
  rewrite Hlen, Nat.eqb_refl; cbn [bind].
  unfold spec_specific_surface.
  rewrite (zip_with_by_index _ _ _ Hlen). reflexivity.
Qed.

Lemma zip_div_zeros sizes masses :
  Forall (fun s => (0 <? s) = true) sizes ->
  Forall (fun f => (f =? 0) = true) masses ->
  Forall (fun x => (x =? 0) = true) (zip_with PrimFloat.div masses sizes).
Proof.
  intros Hs; revert masses.
  induction Hs as [|s sizes Hs _ IH]; intros masses Hm;
    destruct Hm as [|f masses Hf Hm]; cbn; constructor.
  - apply div_zero_pos; assumption.
  - apply IH, Hm.
Qed.

(** the value returned for arrays of one length and a non-zero density *)
Lemma integrator_value (sizes massFractions : list float) (rho_s : float) :
  length massFractions = length sizes ->
  (rho_s =? 0) = false ->
  calculate_specific_surface_discrete (N := F64 L) sizes massFractions rho_s
  = Ok (6 / rho_s * lib_sum L (zip_with PrimFloat.div massFractions sizes)).
Proof.
  intros Hlen Hrho.
  unfold calculate_specific_surface_discrete, py_float_div, np_divide; f64.
  rewrite Hrho; cbn [bind].
  rewrite Hlen, Nat.eqb_refl. reflexivity.
Qed.

(** the one-dimensional shapes that NumPy broadcasts in [freq / grain_size] *)
Definition broadcastable (a b : list float) : bool :=
  Nat.eqb (length a) (length b) || Nat.eqb (length a) 1
  || Nat.eqb (length b) 1.

(** with shapes that broadcast, zero masses over positive sizes give an array
    of zero quotients, whichever array is stretched *)
Lemma integrator_zero_quotients (sizes massFractions : list float)
    (rho_s : float) :
  broadcastable massFractions sizes = true ->
  (rho_s =? 0) = false ->
  Forall (fun s => (0 <? s) = true) sizes ->
  Forall (fun f => (f =? 0) = true) massFractions ->
  exists q,
    calculate_specific_surface_discrete (N := F64 L) sizes massFractions rho_s
    = Ok (6 / rho_s * lib_sum L q)
    /\ Forall (fun x => (x =? 0) = true) q.
Proof.
  intros Hb Hrho Hsizes Hzero. revert Hb.
  unfold calculate_specific_surface_discrete, py_float_div, np_divide,
    broadcastable; f64.
  rewrite Hrho; cbn [bind].
  destruct (Nat.eqb (length massFractions) (length sizes)); cbn [bind orb].
  { intros _. eexists; split; [reflexivity|].
    apply zip_div_zeros; assumption. }
  destruct (Nat.eqb (length massFractions) 1) eqn:E1; cbn [bind orb].
  { intros _. eexists; split; [reflexivity|].
    destruct massFractions as [|f [|f' rest]]; try discriminate E1.
    inversion Hzero as [|? ? Hf _]; subst. cbn [hd].
    induction Hsizes as [|s sizes Hs _ IH]; cbn [map];
      [constructor | constructor; [apply div_zero_pos; assumption | exact IH]]. }
  destruct (Nat.eqb (length sizes) 1) eqn:E2; cbn [bind]; [|discriminate].
  intros _. eexists; split; [reflexivity|].
  destruct sizes as [|s [|s' rest]]; try discriminate E2.
  inversion Hsizes as [|? ? Hs _]; subst. cbn [hd].
  clear E1.
  induction Hzero as [|f massFractions Hf _ IH]; cbn [map];
    [constructor | constructor; [apply div_zero_pos; assumption | exact IH]].
Qed.

(** the call returns a zero, of either sign *)
Definition returns_zero (sizes massFractions : list float) (rho_s : float)
  : Prop :=
  exists r,
    calculate_specific_surface_discrete (N := F64 L) sizes massFractions rho_s
    = Ok r /\ (r =? 0) = true.

(** X1: when the two arrays have shapes that broadcast (equal lengths, or one
    of them of length 1), every mass fraction is zero, every size is positive,
    the density is positive and [6.0 / rho_s] is finite, the integrator
    returns a zero.  The sum of an array of zeros is assumed to be a zero, as
    it is for every order of summation. *)
Theorem zero_masses_give_zero_surface
    (sizes massFractions : list float) (solidDensity : float) :
  (forall a, Forall (fun x => (x =? 0) = true) a -> (lib_sum L a =? 0) = true) ->
  broadcastable massFractions sizes = true ->
  Forall (fun s => (0 <? s) = true) sizes ->
  Forall (fun f => (f =? 0) = true) massFractions ->
  (0 <? solidDensity) = true ->
  is_finite (6 / solidDensity) = true ->
  returns_zero sizes massFractions solidDensity.
Proof.
  intros Hsum Hb Hsizes Hzero Hpos Hfin.
  destruct (integrator_zero_quotients sizes massFractions solidDensity
              Hb (pos_nonzero _ Hpos) Hsizes Hzero) as [q [Hcall Hq]].
  exists (6 / solidDensity * lib_sum L q).
  split; [exact Hcall|].
  apply mul_finite_zero; [exact Hfin|]. apply Hsum, Hq.
Qed.

End Integrator.

(** C3 at three bins of the notebook's scale. *)
Lemma integrator_computes_spec_formula_witness :
  calculate_specific_surface_discrete (N := F64 Reference.lib)
    [0x1p-10; 0x1p-9; 0x1p-8]%float [0x1p-2; 0x1p-1; 0x1p-2]%float 2650%float
  = Ok (spec_specific_surface Reference.lib
          [0x1p-10; 0x1p-9; 0x1p-8]%float [0x1p-2; 0x1p-1; 0x1p-2]%float
          2650%float).
Proof.
  apply integrator_computes_spec_formula; reflexivity.
Defined.

(** ** The discretizer on binary64 *)

Section DiscretizerF64.
Variable L : SciLib.
Local Open Scope float_scope.

Abbreviation grid := (log_grid (N := F64 L)).

(** the step between grid points that [np.arange] derives from its first two
    elements, [(-7.0 + 0.01) - (-7.0)] *)
Definition grid_step : float := (-7 + 0.01) - (-7).

Lemma log_grid_values :
  grid = map (fun i => -7 + of_Z (Z.of_nat i) * grid_step) (seq 0 600).
Proof. vm_compute. reflexivity. Qed.

Lemma log_grid_length : length grid = 600%nat.
Proof. rewrite log_grid_values, length_map, length_seq. reflexivity. Qed.

Lemma log_grid_range :
  forallb (fun x => (-7 <=? x) && (x <? -1)) grid = true.
Proof. vm_compute. reflexivity. Qed.

Lemma log_grid_in_range i :
  (i < 600)%nat -> (-7 <=? nth i grid 0) && (nth i grid 0 <? -1) = true.
Proof.
  intros Hi. pose proof log_grid_range as H.
  rewrite forallb_forall in H. apply H, nth_In.
  rewrite log_grid_length; exact Hi.
Qed.

Lemma clay_threshold_f64 : clay_threshold (N := F64 L) = 2e-6.
Proof. reflexivity. Qed.

(** C4, amended: both returned arrays have 600 entries, one per point of the
    grid [start + i * step] of [np.arange(-7.0, -1, 0.01)] over [[-7, -1)];
    in every bin whose reported size is not below [2e-6] the returned mass is
    the finite difference of the distribution function over the grid points
    (over their powers of ten when [log_transform] is false), bin 0 holding
    the value at the first point; in every bin whose reported size is below
    [2e-6] the returned mass is 0.  Nothing is renormalized. *)
Theorem returned_masses_are_cdf_differences_outside_clay
    (gs_mean gs_std rho_s clay_cutoff : float) (log_transform : bool) :
  let out := generate_gs_distributions (N := F64 L)
               gs_mean gs_std rho_s clay_cutoff log_transform in
  let pts := if log_transform then grid else map (lib_pow10 L) grid in
  let cdf := fun x => lib_norm_cdf L x gs_mean gs_std in
  (grid = map (fun i => -7 + of_Z (Z.of_nat i) * grid_step) (seq 0 600) /\
   forall i, (i < 600)%nat ->
             (-7 <=? nth i grid 0) = true /\ (nth i grid 0 <? -1) = true) /\
  length (fst out) = 600%nat /\
  length (snd out) = 600%nat /\
  forall i, (i < 600)%nat ->
    nth i (snd out) 0 =
    if nth i (fst out) 0 <? 2e-6 then 0
    else match i with
         | O => cdf (nth 0 pts 0)
         | S j => cdf (nth i pts 0) - cdf (nth j pts 0)
         end.
Proof.
  intros out pts cdf.
  split; [split; [apply log_grid_values|]|].
  { intros i Hi. apply andb_prop. apply log_grid_in_range, Hi. }
  split.
  { unfold out. rewrite generate_sizes, bin_sizes_length.
    apply log_grid_length. }
  split.
  { unfold out. rewrite generate_freq_length. apply log_grid_length. }
  intros i Hi. unfold out.
  rewrite generate_freq_nth by (rewrite log_grid_length; exact Hi).
  rewrite bin_frequencies_nth by (rewrite log_grid_length; exact Hi).
  destruct i as [|j]; reflexivity.
Qed.

(** C5: the reported size of bin 0 is the first grid value in metres, and
    the size of every later bin is the mean of its grid value and of its left
    neighbour's, both in metres. *)
Theorem reported_sizes_are_midpoints
    (gs_mean gs_std rho_s clay_cutoff : float) (log_transform : bool) :
  let sizes := fst (generate_gs_distributions (N := F64 L)
                      gs_mean gs_std rho_s clay_cutoff log_transform) in
  let metres := fun i => lib_pow10 L (nth i grid 0) in
  length sizes = 600%nat /\
  nth 0 sizes 0 = metres 0%nat /\
  forall i, (1 <= i < 600)%nat ->
            nth i sizes 0 = (metres i + metres (i - 1)%nat) / 2.
Proof.
  intros sizes metres; unfold sizes; rewrite generate_sizes.
  split; [rewrite bin_sizes_length; apply log_grid_length|].
  split.
  - rewrite bin_sizes_nth by (rewrite log_grid_length; lia). reflexivity.
  - intros i Hi.
    rewrite bin_sizes_nth by (rewrite log_grid_length; lia).
    destruct i as [|j]; [lia|].
    replace (S j - 1)%nat with j by lia. reflexivity.
Qed.

(** C10: the two returned arrays do not depend on [rho_s] nor on
    [clay_cutoff]; the threshold applied to every bin is the constant [2e-6]. *)
Theorem discretizer_ignores_density_and_cutoff
    (gs_mean gs_std : float) (log_transform : bool)
    (rho_s rho_s' clay_cutoff clay_cutoff' : float) :
  generate_gs_distributions (N := F64 L)
    gs_mean gs_std rho_s clay_cutoff log_transform
  = generate_gs_distributions (N := F64 L)
      gs_mean gs_std rho_s' clay_cutoff' log_transform
  /\
  forall i, (i < 600)%nat ->
    let out := generate_gs_distributions (N := F64 L)
                 gs_mean gs_std rho_s clay_cutoff log_transform in
    nth i (snd out) 0 =
    if nth i (fst out) 0 <? 2e-6 then 0
    else nth i (bin_frequencies (N := F64 L) gs_mean gs_std log_transform) 0.
Proof.
  split; [reflexivity|].
  intros i Hi out; unfold out.
  rewrite generate_freq_nth by (rewrite log_grid_length; lia). reflexivity.
Qed.

End DiscretizerF64.

Section DiscretizerWitnesses.
Local Open Scope float_scope.

(** C4 as stated fails on the returned array: at the notebook's first sample
    the first bin, of size [10 ** -7.0], is removed as clay, so its returned
    mass is 0 while the distribution function at the first point is not. *)
Lemma returned_first_bin_is_not_the_cdf_value :
  let L := Reference.lib in
  let out := generate_gs_distributions (N := F64 L)
               2e-6 2e-6 2650 4e-6 false in
  let pts := map (lib_pow10 L) (log_grid (N := F64 L)) in
  nth 0 (snd out) 0 = 0 /\
  (0.17 <? lib_norm_cdf L (nth 0 pts 0) 2e-6 2e-6) = true /\
  (nth 0 (snd out) 0 =? lib_norm_cdf L (nth 0 pts 0) 2e-6 2e-6) = false.
Proof. vm_compute. repeat split; reflexivity. Qed.

(** C4, amended, at the notebook's first sample: bin 150, of a size between
    [2e-6] and the notebook's cutoff [4e-6], keeps the difference of the
    distribution function. *)
Lemma returned_masses_are_cdf_differences_outside_clay_witness :
  let L := Reference.lib in
  let out := generate_gs_distributions (N := F64 L)
               2e-6 2e-6 2650 4e-6 false in
  let pts := map (lib_pow10 L) (log_grid (N := F64 L)) in
  (nth 150 (fst out) 0 <? 2e-6) = false /\
  nth 150 (snd out) 0
  = (lib_norm_cdf L (nth 150 pts 0) 2e-6 2e-6
     - lib_norm_cdf L (nth 149 pts 0) 2e-6 2e-6).
Proof.
  intros L out pts.
  assert (Hsize : (nth 150 (fst out) 0 <? 2e-6) = false)
    by (vm_compute; reflexivity).
  split; [exact Hsize|].
  pose proof (proj2 (proj2 (proj2
                (returned_masses_are_cdf_differences_outside_clay
                   L 2e-6 2e-6 2650 4e-6 false))) 150%nat) as H.
  cbv zeta in H. fold out in H. rewrite Hsize in H.
  apply H. lia.
Defined.

(** C5 at the notebook's first sample, bin 1. *)
Lemma reported_sizes_are_midpoints_witness :
  let L := Reference.lib in
  nth 1 (fst (generate_gs_distributions (N := F64 L)
                2e-6 2e-6 2650 4e-6 false)) 0
  = ((lib_pow10 L (nth 1 (log_grid (N := F64 L)) 0)
      + lib_pow10 L (nth 0 (log_grid (N := F64 L)) 0)) / 2).
Proof.
  intros L.
  apply (proj2 (proj2
           (reported_sizes_are_midpoints L 2e-6 2e-6 2650 4e-6 false)) 1%nat).
  lia.
Defined.

(** C10 at the notebook's first sample, bin 150, for two cutoffs. *)
Lemma discretizer_ignores_density_and_cutoff_witness :
  let L := Reference.lib in
  let out := generate_gs_distributions (N := F64 L)
               2e-6 2e-6 2650 4e-6 false in
  nth 150 (snd out) 0 =
  if (nth 150 (fst out) 0 <? 2e-6) then 0
  else nth 150 (bin_frequencies (N := F64 L) 2e-6 2e-6 false) 0.
Proof.
  intros L.
  apply (proj2 (discretizer_ignores_density_and_cutoff
                  L 2e-6 2e-6 false 2650 1000 4e-6 2e-6) 150%nat).
  lia.
Defined.

End DiscretizerWitnesses.

(** ** The integrator at the edges of the binary64 range *)

Section IntegratorEdges.
Local Open Scope float_scope.

(** without the bound on [6.0 / rho_s] the result is not a zero: at a density
    so small that the quotient overflows, the product of infinity and the zero
    sum is not a number. *)
Lemma zero_masses_nan_at_tiny_density :
  (0 <? 1) = true /\ (0 =? 0) = true /\ (0 <? 1e-308) = true /\
  calculate_specific_surface_discrete (N := F64 Reference.lib) [1] [0] 1e-308
  = Ok nan /\
  ~ returns_zero Reference.lib [1] [0] 1e-308.
Proof.
  repeat (split; [reflexivity|]).
  intros [r [H Hr]]. vm_compute in H. injection H as <-. discriminate Hr.
Qed.

(** X1 at two clay-only bins and the notebook's density. *)
Lemma zero_masses_give_zero_surface_witness :
  returns_zero Reference.lib [0x1p-20; 0x1p-19] [0; 0] 2650.
Proof.
  apply zero_masses_give_zero_surface.
  - exact sum_in_order_zeros.
  - reflexivity.
  - repeat constructor.
  - repeat constructor.
  - reflexivity.
  - reflexivity.
Defined.

End IntegratorEdges.


(** ** Scaling by two in binary64

    Multiplying or dividing a normal number by two changes its exponent only,
    and the rounding of a quotient or product commutes with that change as long
    as the result stays a normal number.  The lemmas below establish this on
    the specification of the primitive operations. *)

Section Binary64Scaling.
Local Open Scope Z_scope.

(** binary64 rounding, on the specification *)
Abbreviation bra := (binary_round_aux prec emax).
Abbreviation fexp64 := (fexp prec emax).
Abbreviation emin64 := (-1074).

Lemma fexp64_eq e : fexp64 e = Z.max (e - 53) (-1074).
Proof. reflexivity. Qed.

Lemma shr_fexp_pred m e l :
  emin64 < snd (shr_fexp prec emax m e l) ->
  shr_fexp prec emax m (e - 1) l =
  (fst (shr_fexp prec emax m e l), snd (shr_fexp prec emax m e l) - 1).
Proof.
  unfold shr_fexp. rewrite !fexp64_eq.
  set (d := Zdigits2 m). set (r := shr_record_of_loc m l).
  unfold shr.
  destruct (Z.max (d + e - 53) (-1074) - e) as [|p|p] eqn:E1;
  destruct (Z.max (d + (e - 1) - 53) (-1074) - (e - 1)) as [|q|q] eqn:E2;
    cbn [fst snd]; intros H; try (f_equal; lia); try lia.
  - assert (p = q) by lia. subst q. f_equal. lia.
Qed.

Lemma shr_fexp_snd_ge m e l : e <= snd (shr_fexp prec emax m e l).
Proof.
  unfold shr_fexp, shr.
  destruct (fexp64 (Zdigits2 m + e) - e); cbn [snd]; lia.
Qed.

(** lowering the exponent of the argument by one lowers the exponent of a
    finite rounded result by one, above the subnormal range *)
Lemma bra_pred_stage s m e l s' m' e' :
  emin64 < snd (shr_fexp prec emax m e l) ->
  bra s m e l = S754_finite s' m' e' ->
  bra s m (e - 1) l = S754_finite s' m' (e' - 1).
Proof.
  intros H1. unfold binary_round_aux.
  rewrite (shr_fexp_pred _ _ _ H1).
  destruct (shr_fexp prec emax m e l) as [mrs1 e1]; cbn [fst snd] in *.
  set (m2 := round_nearest_even (shr_m mrs1) (loc_of_shr_record mrs1)).
  assert (H2 : emin64 < snd (shr_fexp prec emax m2 e1 loc_Exact)).
  { pose proof (shr_fexp_snd_ge m2 e1 loc_Exact). lia. }
  rewrite (shr_fexp_pred _ _ _ H2).
  destruct (shr_fexp prec emax m2 e1 loc_Exact) as [mrs2 e2]; cbn [fst snd] in *.
  destruct (shr_m mrs2) as [|p|p]; try discriminate.
  destruct (e2 <=? emax - prec) eqn:E; try discriminate.
  intros H; injection H as <- <- <-.
  apply Z.leb_le in E.
  destruct (e2 - 1 <=? emax - prec) eqn:E'; [reflexivity|].
  apply Z.leb_gt in E'. lia.
Qed.

(** digits and the binary logarithm *)
Lemma digits2_pos_size p : digits2_pos p = Pos.size p.
Proof. induction p; cbn; congruence. Qed.

Lemma Zdigits2_log2 m : 0 < m -> Zdigits2 m = Z.log2 m + 1.
Proof.
  destruct m as [|p|p]; try lia. intros _.
  cbn [Zdigits2]. rewrite digits2_pos_size.
  destruct p; cbn [Z.log2 Pos.size]; lia.
Qed.

Lemma Zdigits2_bounds m : 0 < m -> 2 ^ (Zdigits2 m - 1) <= m < 2 ^ Zdigits2 m.
Proof.
  intros H. rewrite Zdigits2_log2 by assumption.
  replace (Z.log2 m + 1 - 1) with (Z.log2 m) by lia.
  apply (Z.log2_spec m H).
Qed.

Lemma Zdigits2_le m k : 0 <= k -> 0 <= m <= 2 ^ k -> Zdigits2 m <= k + 1.
Proof.
  intros Hk [H0 Hm].
  destruct (Z.eq_dec m 0) as [->|Hn]; [cbn; lia|].
  rewrite Zdigits2_log2 by lia.
  assert (Z.log2 m <= k); [|lia].
  rewrite <- (Z.log2_pow2 k Hk). apply Z.log2_le_mono. exact Hm.
Qed.

Lemma shr_1_m r : 0 <= shr_m r -> shr_m (shr_1 r) = shr_m r / 2.
Proof.
  destruct r as [m b c]; cbn [shr_m]. intros H.
  rewrite <- Z.div2_div.
  destruct m as [|[p|p|]|p]; cbn; try reflexivity; lia.
Qed.

Lemma iter_shr_1_m p : forall r,
  0 <= shr_m r -> shr_m (iter_pos shr_1 p r) = shr_m r / 2 ^ Zpos p.
Proof.
  assert (Hnn : forall r, 0 <= shr_m r -> 0 <= shr_m (shr_1 r)).
  { intros r H. rewrite shr_1_m by assumption. apply Z.div_pos; lia. }
  induction p as [p IH|p IH|]; intros r H; cbn [iter_pos].
  - assert (H1 := Hnn r H).
    assert (H2 : 0 <= shr_m (iter_pos shr_1 p (shr_1 r))).
    { rewrite IH by assumption. apply Z.div_pos; lia. }
    rewrite IH, IH, shr_1_m by assumption.
    rewrite !Z.div_div by lia. f_equal.
    rewrite Pos2Z.inj_xI, <- !Z.pow_add_r, <- Z.pow_succ_r by lia. f_equal; lia.
  - assert (H2 : 0 <= shr_m (iter_pos shr_1 p r)).
    { rewrite IH by assumption. apply Z.div_pos; lia. }
    rewrite IH, IH by assumption.
    rewrite !Z.div_div by lia. f_equal.
    rewrite Pos2Z.inj_xO, <- !Z.pow_add_r by lia. f_equal; lia.
  - rewrite shr_1_m by assumption. reflexivity.
Qed.

Lemma round_nearest_even_le m l : round_nearest_even m l <= m + 1.
Proof. destruct l as [|[| |]]; cbn; try destruct (Z.even m); lia. Qed.

Lemma round_nearest_even_ge m l : m <= round_nearest_even m l.
Proof. destruct l as [|[| |]]; cbn; try destruct (Z.even m); lia. Qed.

Lemma shr_record_of_loc_m m l : shr_m (shr_record_of_loc m l) = m.
Proof. destruct l as [|[| |]]; reflexivity. Qed.

Lemma shr_fexp_snd m e l :
  snd (shr_fexp prec emax m e l) = Z.max e (fexp64 (Zdigits2 m + e)).
Proof.
  unfold shr_fexp, shr.
  destruct (fexp64 (Zdigits2 m + e) - e) eqn:E; cbn [snd]; lia.
Qed.

(** a first shift that ends on the lowest exponent leaves at most 53 bits *)
Lemma shr_fexp_low m e l :
  0 < m -> snd (shr_fexp prec emax m e l) <= emin64 ->
  0 <= shr_m (fst (shr_fexp prec emax m e l)) < 2 ^ 53.
Proof.
  intros Hm. rewrite shr_fexp_snd, fexp64_eq. intros H.
  pose proof (Zdigits2_bounds m Hm) as [_ Hd].
  unfold shr_fexp, shr. rewrite fexp64_eq.
  destruct (Z.max (Zdigits2 m + e - 53) (-1074) - e) as [|p|p] eqn:E;
    cbn [fst].
  - rewrite shr_record_of_loc_m. split; [lia|].
    eapply Z.lt_le_trans; [exact Hd|]. apply Z.pow_le_mono_r; lia.
  - rewrite iter_shr_1_m by (rewrite shr_record_of_loc_m; lia).
    rewrite shr_record_of_loc_m. split; [apply Z.div_pos; lia|].
    apply Z.div_lt_upper_bound; [lia|].
    rewrite <- Z.pow_add_r by lia.
    eapply Z.lt_le_trans; [exact Hd|]. apply Z.pow_le_mono_r; lia.
  - rewrite shr_record_of_loc_m. split; [lia|].
    eapply Z.lt_le_trans; [exact Hd|]. apply Z.pow_le_mono_r; lia.
Qed.

Lemma bra_pred s m e l s' m' e' :
  0 < m -> emin64 + 2 <= e' ->
  bra s m e l = S754_finite s' m' e' ->
  bra s m (e - 1) l = S754_finite s' m' (e' - 1).
Proof.
  intros Hm He H.
  apply bra_pred_stage; [|exact H].
  destruct (Z.lt_ge_cases emin64 (snd (shr_fexp prec emax m e l)))
    as [Hlt|Hge]; [exact Hlt|exfalso].
  pose proof (shr_fexp_low m e l Hm ltac:(lia)) as Hlow.
  revert H. unfold binary_round_aux.
  destruct (shr_fexp prec emax m e l) as [mrs1 e1]; cbn [fst snd] in *.
  set (m2 := round_nearest_even (shr_m mrs1) (loc_of_shr_record mrs1)).
  pose proof (round_nearest_even_le (shr_m mrs1) (loc_of_shr_record mrs1)).
  pose proof (round_nearest_even_ge (shr_m mrs1) (loc_of_shr_record mrs1)).
  assert (Hd2 : Zdigits2 m2 <= 54).
  { apply (Zdigits2_le m2 53); unfold m2; lia. }
  pose proof (shr_fexp_snd m2 e1 loc_Exact) as Hs.
  rewrite fexp64_eq in Hs.
  destruct (shr_fexp prec emax m2 e1 loc_Exact) as [mrs2 e2]; cbn [snd] in Hs.
  destruct (shr_m mrs2); try discriminate.
  destruct (e2 <=? emax - prec); try discriminate.
  intros Hr; injection Hr as <- <- <-. lia.
Qed.

(** shifting out the zero bits of an exact multiple is exact *)
Lemma shr_1_double z :
  0 < z ->
  shr_1 {| shr_m := 2 * z; shr_r := false; shr_s := false |}
  = {| shr_m := z; shr_r := false; shr_s := false |}.
Proof. destruct z; try lia. reflexivity. Qed.

Lemma iter_shr_1_exact p : forall z,
  0 < z ->
  iter_pos shr_1 p {| shr_m := z * 2 ^ Zpos p; shr_r := false; shr_s := false |}
  = {| shr_m := z; shr_r := false; shr_s := false |}.
Proof.
  induction p as [p IH|p IH|]; intros z Hz; cbn [iter_pos].
  - replace (z * 2 ^ Z.pos p~1) with (2 * ((z * 2 ^ Zpos p) * 2 ^ Zpos p)).
    + rewrite shr_1_double by lia. rewrite IH by lia. apply IH, Hz.
    + replace (Z.pos p~1) with (Zpos p + Zpos p + 1) by lia.
      rewrite !Z.pow_add_r by lia. ring.
  - replace (z * 2 ^ Z.pos p~0) with ((z * 2 ^ Zpos p) * 2 ^ Zpos p).
    + rewrite IH by lia. apply IH, Hz.
    + replace (Z.pos p~0) with (Zpos p + Zpos p) by lia.
      rewrite !Z.pow_add_r by lia. ring.
  - replace (z * 2 ^ 1) with (2 * z) by lia. apply shr_1_double, Hz.
Qed.

(** rounding a binary64 number written with [k] extra zero bits returns it *)
Lemma bra_exact s m e k :
  0 <= k -> digits2_pos m = 53%positive -> emin64 <= e <= 971 ->
  bra s (Zpos m * 2 ^ k) (e - k) loc_Exact = S754_finite s m e.
Proof.
  intros Hk Hd He.
  assert (Hdig : Zdigits2 (Zpos m * 2 ^ k) = 53 + k).
  { rewrite Zdigits2_log2 by lia.
    rewrite Z.log2_mul_pow2 by lia.
    pose proof (Zdigits2_log2 (Zpos m) ltac:(lia)) as H.
    cbn [Zdigits2] in H. rewrite Hd in H. lia. }
  unfold binary_round_aux, shr_fexp. rewrite Hdig, fexp64_eq.
  replace (Z.max (53 + k + (e - k) - 53) (-1074) - (e - k)) with k by lia.
  assert (Hstage :
    shr (shr_record_of_loc (Zpos m * 2 ^ k) loc_Exact) (e - k) k
    = ({| shr_m := Zpos m; shr_r := false; shr_s := false |}, e)).
  { unfold shr. destruct k as [|p|p]; try lia.
    - cbn [shr_record_of_loc]. f_equal; [f_equal|]; lia.
    - cbn [shr_record_of_loc]. rewrite iter_shr_1_exact by lia.
      f_equal; lia. }
  rewrite Hstage. cbn [shr_m loc_of_shr_record round_nearest_even].
  cbn [Zdigits2]. rewrite Hd, fexp64_eq.
  replace (Z.max (53 + e - 53) (-1074) - e) with 0 by lia.
  cbn [shr shr_record_of_loc shr_m].
  destruct (e <=? emax - prec) eqn:E; [reflexivity|].
  apply Z.leb_gt in E. change (emax - prec) with 971 in E. lia.
Qed.

Local Open Scope float_scope.

Lemma valid_finite_spec x s m e :
  Prim2SF x = S754_finite s m e ->
  (fexp64 (Zpos (digits2_pos m) + e) = e /\ e <= 971)%Z.
Proof.
  intros H. pose proof (Prim2SF_valid x) as V. rewrite H in V.
  cbn [SpecFloat.valid_binary] in V. unfold bounded, canonical_mantissa in V.
  apply andb_prop in V. destruct V as [V1 V2].
  apply Z.eqb_eq in V1. apply Z.leb_le in V2. split; assumption.
Qed.

Lemma normal_digits x s m e :
  Prim2SF x = S754_finite s m e -> (-1074 < e)%Z ->
  digits2_pos m = 53%positive.
Proof.
  intros H He. destruct (valid_finite_spec x s m e H) as [V _].
  rewrite fexp64_eq in V.
  assert (Zpos (digits2_pos m) = 53%Z) by lia. congruence.
Qed.

(** a density between [2^-1021] and [2^1022] is a positive normal number
    whose double is finite *)
Lemma density_range_spec x :
  (0x1p-1021 <=? x) = true -> (x <=? 0x1p1022) = true ->
  exists m e, Prim2SF x = S754_finite false m e /\
              digits2_pos m = 53%positive /\ (-1073 <= e <= 970)%Z.
Proof.
  rewrite !leb_spec.
  change (Prim2SF 0x1p-1021) with (S754_finite false 4503599627370496 (-1073)).
  change (Prim2SF 0x1p1022) with (S754_finite false 4503599627370496 970).
  destruct (Prim2SF x) as [s|s| |s m e] eqn:E; try destruct s;
    unfold SFleb, SFcompare; cbv beta iota; try discriminate.
  intros H1 H2.
  assert (He : (-1073 <= e <= 970)%Z).
  { destruct (Z.compare_spec (-1073) e); destruct (Z.compare_spec e 970);
      try discriminate; lia. }
  exists m, e. split; [reflexivity|]. split; [|exact He].
  apply (normal_digits x false m e E). lia.
Qed.

(** a finite value of magnitude at least [2^-1020] is a normal number with an
    exponent at least two above the lowest *)
Lemma magnitude_spec r :
  (0x1p-1020 <=? abs r) = true -> is_finite r = true ->
  exists s m e, Prim2SF r = S754_finite s m e /\
                digits2_pos m = 53%positive /\ (-1072 <= e <= 971)%Z.
Proof.
  unfold is_finite, is_nan, is_infinity.
  rewrite leb_spec, !eqb_spec, abs_spec, Prim2SF_infinity.
  change (Prim2SF 0x1p-1020) with (S754_finite false 4503599627370496 (-1072)).
  destruct (Prim2SF r) as [s|s| |s m e] eqn:E; try destruct s;
    unfold SFleb, SFeqb, SFcompare, SFabs; cbv beta iota;
    try discriminate; intros H1 _.
  - assert (He : (-1072 <= e)%Z).
    { destruct (Z.compare_spec (-1072) e); try discriminate; lia. }
    exists true, m, e. split; [reflexivity|].
    destruct (valid_finite_spec r true m e E) as [_ V].
    split; [apply (normal_digits r true m e E)|]; lia.
  - assert (He : (-1072 <= e)%Z).
    { destruct (Z.compare_spec (-1072) e); try discriminate; lia. }
    exists false, m, e. split; [reflexivity|].
    destruct (valid_finite_spec r false m e E) as [_ V].
    split; [apply (normal_digits r false m e E)|]; lia.
Qed.

(** doubling a normal number raises its exponent *)
Lemma mul_two_spec x s m e :
  Prim2SF x = S754_finite s m e -> digits2_pos m = 53%positive ->
  (-1074 <= e <= 970)%Z ->
  Prim2SF (2 * x) = S754_finite s m (e + 1).
Proof.
  intros H Hd He. rewrite mul_spec, H.
  change (Prim2SF 2) with (S754_finite false 4503599627370496 (-51)).
  unfold SF64mul, SFmul. cbn [xorb].
  replace (Zpos (4503599627370496 * m)) with (Zpos m * 2 ^ 52)%Z by lia.
  replace (-51 + e)%Z with (e + 1 - 52)%Z by lia.
  apply bra_exact; [lia | exact Hd | lia].
Qed.

(** halving a normal number above the lowest binades lowers its exponent *)
Lemma div_two_spec x s m e :
  Prim2SF x = S754_finite s m e -> digits2_pos m = 53%positive ->
  (-1072 <= e <= 971)%Z ->
  Prim2SF (x / 2) = S754_finite s m (e - 1).
Proof.
  intros H Hd He. rewrite div_spec, H.
  change (Prim2SF 2) with (S754_finite false 4503599627370496 (-51)).
  unfold SF64div, SFdiv, SFdiv_core_binary.
  cbn [Zdigits2]. rewrite Hd.
  change (Zpos (digits2_pos 4503599627370496)) with 53%Z.
  rewrite fexp64_eq.
  replace (Z.min (Z.max (53 + e - (53 + -51) - 53) (-1074)) (e - -51))
    with (e - 2)%Z by lia.
  replace (e - -51 - (e - 2))%Z with 53%Z by lia.
  rewrite Z.shiftl_mul_pow2 by lia.
  replace (Z.div_eucl (Zpos m * 2 ^ 53) 4503599627370496)
    with ((2 * Zpos m)%Z, 0%Z).
  - cbn [new_location]. change (new_location 4503599627370496 0) with loc_Exact.
    replace (xorb s false) with s by (destruct s; reflexivity).
    replace (2 * Zpos m)%Z with (Zpos m * 2 ^ 1)%Z by lia.
    replace (e - 2)%Z with (e - 1 - 1)%Z by lia.
    apply bra_exact; [lia | exact Hd | lia].
  - pose proof (Z.div_eucl_eq (Zpos m * 2 ^ 53) 4503599627370496 ltac:(lia)) as Hq.
    pose proof (Z.mod_pos_bound (Zpos m * 2 ^ 53) 4503599627370496 ltac:(lia)) as Hr.
    unfold Z.modulo in Hr.
    destruct (Z.div_eucl (Zpos m * 2 ^ 53) 4503599627370496) as [q r].
    change (2 ^ 53)%Z with (2 * 4503599627370496)%Z in Hq.
    assert (q = 2 * Zpos m)%Z by nia.
    assert (r = 0)%Z by nia. congruence.
Qed.

(** dividing by a doubled normal divisor lowers the exponent of a finite
    quotient *)
Lemma div_by_double_spec a x x2 sa ma ea sx mx ex sq mq eq_ :
  Prim2SF a = S754_finite sa ma ea -> digits2_pos ma = 53%positive ->
  Prim2SF x = S754_finite sx mx ex -> digits2_pos mx = 53%positive ->
  Prim2SF x2 = S754_finite sx mx (ex + 1) ->
  (-1074 < ea - ex - 53)%Z ->
  Prim2SF (a / x) = S754_finite sq mq eq_ ->
  Prim2SF (a / x2) = S754_finite sq mq (eq_ - 1).
Proof.
  intros Ha Hda Hx Hdx Hx2 He.
  rewrite !div_spec, Ha, Hx, Hx2.
  unfold SF64div, SFdiv, SFdiv_core_binary.
  cbn [Zdigits2]. rewrite Hda, Hdx, !fexp64_eq.
  replace (Z.min (Z.max (53 + ea - (53 + ex) - 53) (-1074)) (ea - ex))
    with (ea - ex - 53)%Z by lia.
  replace (Z.min (Z.max (53 + ea - (53 + (ex + 1)) - 53) (-1074))
                 (ea - (ex + 1)))
    with (ea - ex - 53 - 1)%Z by lia.
  replace (ea - (ex + 1) - (ea - ex - 53 - 1))%Z with 53%Z by lia.
  replace (ea - ex - (ea - ex - 53))%Z with 53%Z by lia.
  destruct (Z.div_eucl (Z.shiftl (Zpos ma) 53) (Zpos mx)) as [q r].
  apply bra_pred_stage.
  pose proof (shr_fexp_snd_ge q (ea - ex - 53) (new_location (Zpos mx) r)).
  lia.
Qed.

(** a product with a halved factor has the exponent of a normal result
    lowered *)
Lemma mul_halved_spec q q' S sq mq eq_ sr mr er :
  Prim2SF q = S754_finite sq mq eq_ ->
  Prim2SF q' = S754_finite sq mq (eq_ - 1) ->
  (-1072 <= er)%Z ->
  Prim2SF (q * S) = S754_finite sr mr er ->
  Prim2SF (q' * S) = S754_finite sr mr (er - 1).
Proof.
  intros Hq Hq' He. rewrite !mul_spec, Hq, Hq'.
  unfold SF64mul, SFmul.
  destruct (Prim2SF S) as [s|s| |s m e]; try discriminate.
  replace (eq_ - 1 + e)%Z with (eq_ + e - 1)%Z by lia.
  apply bra_pred; lia.
Qed.

(** with a density in the normal range whose double is
    finite and a finite product of magnitude at least [2^-1020], the value for
    the doubled density is half the value *)
Lemma halving_float rho S :
  (0x1p-1021 <=? rho) = true -> (rho <=? 0x1p1022) = true ->
  (0x1p-1020 <=? abs (6 / rho * S)) = true ->
  is_finite (6 / rho * S) = true ->
  6 / (2 * rho) * S = 6 / rho * S / 2.
Proof.
  intros Hlo Hhi Hmag Hfin.
  destruct (density_range_spec rho Hlo Hhi) as (m & e & Hrho & Hd & He).
  destruct (magnitude_spec _ Hmag Hfin) as (sr & mr & er & Hr & Hdr & Her).
  assert (H2 := mul_two_spec rho false m e Hrho Hd ltac:(lia)).
  assert (Hq : exists sq mq eq_, Prim2SF (6 / rho) = S754_finite sq mq eq_).
  { revert Hr. rewrite mul_spec. unfold SF64mul, SFmul.
    destruct (Prim2SF (6 / rho)) as [s|s| |s mq eq_]; [| | |eauto];
      destruct (Prim2SF S) as [s'|s'| |s' m' e']; discriminate. }
  destruct Hq as (sq & mq & eq_ & Hq).
  assert (Hq2 : Prim2SF (6 / (2 * rho)) = S754_finite sq mq (eq_ - 1)).
  { apply (div_by_double_spec 6 rho (2 * rho)
             false 6755399441055744 (-50) false m e sq mq eq_);
      try assumption; try reflexivity. lia. }
  apply Prim2SF_inj.
  assert (Her' : (-1072 <= er)%Z) by lia.
  rewrite (mul_halved_spec _ _ S _ _ _ _ _ _ Hq Hq2 Her' Hr).
  symmetry. apply div_two_spec; [exact Hr | exact Hdr | lia].
Qed.

End Binary64Scaling.


(** ** What a call of the integrator can do *)

Section IntegratorOutcomes.
Variable L : SciLib.
Local Open Scope float_scope.

Lemma np_divide_outcome (a b : list float) :
  (broadcastable a b = true /\ exists q, np_divide (N := F64 L) a b = Ok q) \/
  (broadcastable a b = false /\ np_divide (N := F64 L) a b = Raise ValueError).
Proof.
  unfold broadcastable, np_divide; f64.
  destruct (Nat.eqb (length a) (length b)); [left; split; eauto|].
  destruct (Nat.eqb (length a) 1); [left; split; eauto|].
  destruct (Nat.eqb (length b) 1); [left; split; eauto|].
  right; split; reflexivity.
Qed.

(** X2: the integrator raises [ZeroDivisionError] exactly when the density is
    a zero of either sign, whatever the two arrays are: [6.0 / rho_s] is
    evaluated before the arrays are divided, so the error precedes any shape
    error. *)
Theorem zero_density_raises_first
    (sizes massFractions : list float) (rho_s : float) :
  calculate_specific_surface_discrete (N := F64 L) sizes massFractions rho_s
  = Raise ZeroDivisionError
  <-> (rho_s =? 0) = true.
Proof.
  unfold calculate_specific_surface_discrete, py_float_div; f64.
  destruct (rho_s =? 0); cbn [bind]; split; intros H;
    try reflexivity; try discriminate H.
  destruct (np_divide_outcome massFractions sizes) as [[_ [q Hq]]|[_ Hq]];
    rewrite Hq in H; discriminate H.
Qed.

(** X3: the integrator raises [ValueError] exactly when the density is not a
    zero and the two arrays have different lengths, neither of them 1; and it
    returns a number in every remaining case. *)
Theorem shape_mismatch_raises
    (sizes massFractions : list float) (rho_s : float) :
  let call := calculate_specific_surface_discrete (N := F64 L)
                sizes massFractions rho_s in
  (call = Raise ValueError
   <-> (rho_s =? 0) = false /\ broadcastable massFractions sizes = false) /\
  ((exists ss, call = Ok ss)
   <-> (rho_s =? 0) = false /\ broadcastable massFractions sizes = true).
Proof.
  intros call; subst call.
  unfold calculate_specific_surface_discrete, py_float_div; f64.
  destruct (rho_s =? 0); cbn [bind].
  - split; split.
    + intros H; discriminate H.
    + intros [H _]; discriminate H.
    + intros [ss H]; discriminate H.
    + intros [H _]; discriminate H.
  - destruct (np_divide_outcome massFractions sizes) as [[Hb [q Hq]]|[Hb Hq]];
      rewrite Hq, Hb; cbn [bind]; split; split.
    + intros H; discriminate H.
    + intros [_ H]; discriminate H.
    + intros _; split; reflexivity.
    + intros _; eexists; reflexivity.
    + intros _; split; reflexivity.
    + intros _; reflexivity.
    + intros [ss H]; discriminate H.
    + intros [_ H]; discriminate H.
Qed.

(** X4: when the two arrays have shapes that broadcast (equal lengths, or
    one of them of length 1), every mass fraction is zero, every size is
    positive, the density is not a zero and [6.0 / rho_s] overflows to an
    infinity, the integrator returns NaN, not 0.0 (the product of an infinity
    and a zero).  The sum of an array of zeros is assumed to be a zero. *)
Theorem zero_masses_nan_when_quotient_overflows
    (sizes massFractions : list float) (rho_s : float) :
  (forall a, Forall (fun x => (x =? 0) = true) a -> (lib_sum L a =? 0) = true) ->
  broadcastable massFractions sizes = true ->
  Forall (fun s => (0 <? s) = true) sizes ->
  Forall (fun f => (f =? 0) = true) massFractions ->
  (rho_s =? 0) = false ->
  is_infinity (6 / rho_s) = true ->
  calculate_specific_surface_discrete (N := F64 L) sizes massFractions rho_s
  = Ok nan.
Proof.
  intros Hsum Hb Hsizes Hzero Hrho Hinf.
  destruct (integrator_zero_quotients L sizes massFractions rho_s
              Hb Hrho Hsizes Hzero) as [q [Hcall Hq]].
  rewrite Hcall. f_equal.
  assert (Hz := Hsum _ Hq).
  apply zero_spec in Hz. destruct Hz as [sz Hz].
  apply Prim2SF_inj. rewrite mul_spec, Hz.
  revert Hinf. unfold is_infinity.
  rewrite eqb_spec, abs_spec, Prim2SF_infinity.
  destruct (Prim2SF (6 / rho_s)) as [s|s| |s m e]; try destruct s; cbn;
    try discriminate; reflexivity.
Qed.

(** X5: for a density between [2^-1021] and [2^1022], doubling the density
    halves the returned value exactly, provided that value is finite and of
    magnitude at least [2^-1020].  (Outside these ranges the doubled density
    overflows or the halved value is rounded.) *)
Theorem doubling_density_halves_surface
    (sizes massFractions : list float) (rho_s ss : float) :
  (0x1p-1021 <=? rho_s) = true -> (rho_s <=? 0x1p1022) = true ->
  calculate_specific_surface_discrete (N := F64 L) sizes massFractions rho_s
  = Ok ss ->
  (0x1p-1020 <=? abs ss) = true -> is_finite ss = true ->
  calculate_specific_surface_discrete (N := F64 L)
    sizes massFractions (2 * rho_s)
  = Ok (ss / 2).
Proof.
  intros Hlo Hhi Hcall Hmag Hfin.
  destruct (density_range_spec rho_s Hlo Hhi) as (m & e & Hrho & Hd & He).
  assert (H2 := mul_two_spec rho_s false m e Hrho Hd ltac:(lia)).
  assert (Hnz : (rho_s =? 0) = false)
    by (rewrite eqb_spec, Hrho; reflexivity).
  assert (Hnz2 : (2 * rho_s =? 0) = false)
    by (rewrite eqb_spec, H2; reflexivity).
  revert Hcall.
  unfold calculate_specific_surface_discrete, py_float_div; f64.
  rewrite Hnz, Hnz2; cbn [bind].
  destruct (np_divide (N := F64 L) massFractions sizes) as [q|err];
    cbn [bind]; [|discriminate].
  intros H; injection H as <-. f_equal.
  apply halving_float; assumption.
Qed.

End IntegratorOutcomes.

Section IntegratorOutcomeWitnesses.
Local Open Scope float_scope.

(** X4 at one clay-only bin and a density of [1e-308]. *)
Lemma zero_masses_nan_when_quotient_overflows_witness :
  calculate_specific_surface_discrete (N := F64 Reference.lib) [1] [0] 1e-308
  = Ok nan.
Proof.
  apply zero_masses_nan_when_quotient_overflows.
  - exact sum_in_order_zeros.
  - reflexivity.
  - repeat constructor.
  - repeat constructor.
  - reflexivity.
  - reflexivity.
Defined.

(** X5 at three bins, from the notebook's density to its double. *)
Lemma doubling_density_halves_surface_witness :
  calculate_specific_surface_discrete (N := F64 Reference.lib)
    [0x1p-10; 0x1p-9; 0x1p-8] [0x1p-2; 0x1p-1; 0x1p-2] (2 * 2650)
  = Ok (6 / 2650 * 576 / 2).
Proof.
  apply (doubling_density_halves_surface Reference.lib
           [0x1p-10; 0x1p-9; 0x1p-8] [0x1p-2; 0x1p-1; 0x1p-2] 2650);
    reflexivity.
Defined.

End IntegratorOutcomeWitnesses.


(** ** One sample: the discretizer followed by the integrator *)

Section Pipeline.
Variable L : SciLib.
Local Open Scope float_scope.

(** X6: the two arrays that [generate_gs_distributions] returns always have
    600 entries each, so the integrator applied to them never raises a shape
    error: a sample yields [ZeroDivisionError] when the density is a zero, and
    otherwise [6.0 / rho_s] times the sum of the quotients of the returned
    masses by the returned sizes. *)
Theorem sample_surface_outcome
    (gs_mean gs_std rho_s clay_cutoff : float) (log_transform : bool) :
  let out := generate_gs_distributions (N := F64 L)
               gs_mean gs_std rho_s clay_cutoff log_transform in
  length (fst out) = 600%nat /\ length (snd out) = 600%nat /\
  specific_surface_of_sample (N := F64 L)
    gs_mean gs_std rho_s clay_cutoff log_transform
  = if rho_s =? 0 then Raise ZeroDivisionError
    else Ok (6 / rho_s * lib_sum L (zip_with PrimFloat.div (snd out) (fst out))).
Proof.
  intros out.
  assert (Hb : length (fst out) = 600%nat).
  { unfold out. rewrite generate_sizes, bin_sizes_length. apply log_grid_length. }
  assert (Hf : length (snd out) = 600%nat).
  { unfold out. rewrite generate_freq_length. apply log_grid_length. }
  split; [exact Hb|]. split; [exact Hf|].
  unfold specific_surface_of_sample. fold out.
  destruct out as [bins_gs freq_gs]; cbn [fst snd] in *.
  destruct (rho_s =? 0) eqn:E.
  - unfold calculate_specific_surface_discrete, py_float_div; f64.
    rewrite E. reflexivity.
  - apply integrator_value; [|exact E].
    f64. rewrite Hf. symmetry. exact Hb.
Qed.

(** X7: the reported sizes are the same array for every sample and in both
    modes: they depend on none of the five arguments.  (The plot of cell 17
    draws every sample's masses against the sizes of the last sample.) *)
Theorem reported_sizes_are_shared
    (gs_mean gs_std rho_s clay_cutoff : float) (log_transform : bool)
    (gs_mean' gs_std' rho_s' clay_cutoff' : float) (log_transform' : bool) :
  fst (generate_gs_distributions (N := F64 L)
         gs_mean gs_std rho_s clay_cutoff log_transform)
  = fst (generate_gs_distributions (N := F64 L)
           gs_mean' gs_std' rho_s' clay_cutoff' log_transform').
Proof. rewrite !generate_sizes, !bin_sizes_unfold. reflexivity. Qed.

(** every element is below all the later ones *)
Fixpoint increasingb (l : list float) : bool :=
  match l with
  | [] => true
  | x :: l' => forallb (fun y => x <? y) l' && increasingb l'
  end.

Lemma increasingb_nth (l : list float) :
  increasingb l = true ->
  forall i j, (i < j)%nat -> (j < length l)%nat ->
              (nth i l 0 <? nth j l 0) = true.
Proof.
  induction l as [|x l IH]; cbn [increasingb length nth]; intros H i j Hij Hj;
    [lia|].
  apply andb_prop in H. destruct H as [H1 H2].
  destruct j as [|j]; [lia|]. destruct i as [|i].
  - rewrite forallb_forall in H1. apply H1, nth_In. lia.
  - apply IH; [exact H2 | lia | lia].
Qed.

Lemma log_grid_increasingb : increasingb (log_grid (N := F64 L)) = true.
Proof. vm_compute. reflexivity. Qed.

(** X8: the 600 grid points of [np.arange(-7.0, -1, 0.01)] are strictly
    increasing: the rounding of [start + i * step] never makes two points
    equal or out of order. *)
Theorem log_grid_strictly_increasing (i j : nat) :
  (i < j)%nat -> (j < 600)%nat ->
  (nth i (log_grid (N := F64 L)) 0 <? nth j (log_grid (N := F64 L)) 0) = true.
Proof.
  intros Hij Hj.
  apply (increasingb_nth _ log_grid_increasingb); [exact Hij|].
  change (j < length (log_grid (N := F64 L)))%nat.
  rewrite log_grid_length. exact Hj.
Qed.

End Pipeline.

Section PipelineWitnesses.
Local Open Scope float_scope.

(** X8 at the two ends of the grid. *)
Lemma log_grid_strictly_increasing_witness :
  (nth 0 (log_grid (N := F64 Reference.lib)) 0
   <? nth 599 (log_grid (N := F64 Reference.lib)) 0) = true.
Proof.
  apply (log_grid_strictly_increasing Reference.lib 0 599); lia.
Defined.

End PipelineWitnesses.


(** ** The sign of the masses

    The difference of two binary64 numbers in [[0, 1]] taken in their order is
    never negative, so a distribution function that does not decrease along
    the grid gives masses that are not negative. *)

Section Binary64Differences.
Local Open Scope Z_scope.

Abbreviation bra := (binary_round_aux prec emax).

Lemma shr_fexp_nonneg m e l :
  0 <= m -> 0 <= shr_m (fst (shr_fexp prec emax m e l)).
Proof.
  intros Hm. unfold shr_fexp, shr.
  destruct (fexp prec emax (Zdigits2 m + e) - e) as [|p|p]; cbn [fst];
    rewrite ?iter_shr_1_m; rewrite ?shr_record_of_loc_m; try lia.
  apply Z.div_pos; lia.
Qed.

(** rounding a mantissa that is not negative gives a number that is not
    negative *)
Lemma bra_nonneg m e l :
  0 <= m -> SFleb (S754_zero false) (bra false m e l) = true.
Proof.
  intros Hm. unfold binary_round_aux.
  pose proof (shr_fexp_nonneg m e l Hm) as H1.
  destruct (shr_fexp prec emax m e l) as [mrs1 e1]; cbn [fst] in H1.
  pose proof (round_nearest_even_ge (shr_m mrs1) (loc_of_shr_record mrs1)) as Hr.
  pose proof (shr_fexp_nonneg
                (round_nearest_even (shr_m mrs1) (loc_of_shr_record mrs1))
                e1 loc_Exact ltac:(lia)) as H2.
  destruct (shr_fexp prec emax
              (round_nearest_even (shr_m mrs1) (loc_of_shr_record mrs1))
              e1 loc_Exact) as [mrs2 e2]; cbn [fst] in H2.
  destruct (shr_m mrs2) as [|p|p]; [reflexivity| |lia].
  destruct (e2 <=? emax - prec); reflexivity.
Qed.

Lemma iter_xO_pow (d m : positive) :
  Zpos (Pos.iter xO m d) = Zpos m * 2 ^ Zpos d.
Proof.
  induction d as [|d IH] using Pos.peano_ind.
  - cbn [Pos.iter]. lia.
  - rewrite Pos.iter_succ, Pos2Z.inj_xO, IH, Pos2Z.inj_succ.
    rewrite Z.pow_succ_r by lia. ring.
Qed.

Lemma shl_align_fst m e ez :
  ez <= e -> Zpos (fst (shl_align m e ez)) = Zpos m * 2 ^ (e - ez).
Proof.
  intros H. unfold shl_align.
  destruct (ez - e) as [|d|d] eqn:E; cbn [fst]; try lia.
  - replace (e - ez) with 0 by lia. lia.
  - rewrite iter_xO_pow. f_equal. f_equal. lia.
Qed.

(** the mantissa of a valid number has at most 53 bits, and exactly 53 above
    the lowest exponent *)
Lemma bounded_mantissa m e :
  bounded prec emax m e = true ->
  Zpos m < 2 ^ 53 /\ (-1074 < e -> 2 ^ 52 <= Zpos m).
Proof.
  unfold bounded, canonical_mantissa. intros V.
  apply andb_prop in V. destruct V as [V _]. apply Z.eqb_eq in V.
  rewrite fexp64_eq in V.
  pose proof (Zdigits2_bounds (Zpos m) ltac:(lia)) as [Hlo Hhi].
  cbn [Zdigits2] in Hlo, Hhi.
  split.
  - eapply Z.lt_le_trans; [exact Hhi|]. apply Z.pow_le_mono_r; lia.
  - intros He. assert (Hd : Zpos (digits2_pos m) = 53) by lia.
    rewrite Hd in Hlo. exact Hlo.
Qed.

(** the subtraction of a smaller valid number from a larger one, both
    positive, is not negative *)
Lemma SFsub_finite_nonneg ma ea mb eb :
  bounded prec emax ma ea = true -> bounded prec emax mb eb = true ->
  SFleb (S754_finite false ma ea) (S754_finite false mb eb) = true ->
  SFleb (S754_zero false)
        (SFsub prec emax (S754_finite false mb eb) (S754_finite false ma ea))
  = true.
Proof.
  intros Va Vb Hle.
  destruct (bounded_mantissa ma ea Va) as [Ha _].
  destruct (bounded_mantissa mb eb Vb) as [_ Hb].
  assert (Va' := Va). unfold bounded, canonical_mantissa in Va'.
  apply andb_prop in Va'. destruct Va' as [Va' _]. apply Z.eqb_eq in Va'.
  rewrite fexp64_eq in Va'.
  assert (Hord : ea < eb \/ (ea = eb /\ Zpos ma <= Zpos mb)).
  { revert Hle. unfold SFleb, SFcompare.
    destruct (Z.compare_spec ea eb) as [Heq|Hlt|Hgt]; try discriminate.
    - intros H. right. split; [exact Heq|].
      change (Pos.compare_cont Eq ma mb) with (Pos.compare ma mb) in H.
      destruct (Pos.compare_spec ma mb) as [C|C|C]; [| |discriminate H].
      + rewrite C. lia.
      + lia.
    - intros _. left. exact Hlt. }
  unfold SFsub. cbn [cond_Zopp].
  assert (Hmin : Z.min eb ea = ea) by lia. rewrite Hmin.
  rewrite (shl_align_fst mb eb ea) by lia.
  rewrite (shl_align_fst ma ea ea) by lia.
  replace (ea - ea) with 0 by lia.
  assert (Hdiff : 0 <= Zpos mb * 2 ^ (eb - ea) - Zpos ma * 2 ^ 0).
  { destruct Hord as [Hlt|[-> Hm]].
    - assert (2 ^ 1 <= 2 ^ (eb - ea)) by (apply Z.pow_le_mono_r; lia).
      specialize (Hb ltac:(lia)). nia.
    - replace (eb - eb) with 0 by lia. lia. }
  unfold binary_normalize.
  destruct (Zpos mb * 2 ^ (eb - ea) - Zpos ma * 2 ^ 0) as [|p|p];
    [reflexivity| |lia].
  unfold binary_round.
  destruct (shl_align p ea (fexp prec emax (Zpos (digits2_pos p) + ea)))
    as [mz ez].
  apply bra_nonneg. lia.
Qed.

Local Open Scope float_scope.

(** for [0 <= a <= b <= 1], the difference [b - a] is not negative *)
Lemma sub_nonneg (a b : float) :
  (0 <=? a) = true -> (a <=? b) = true -> (b <=? 1) = true ->
  (0 <=? b - a) = true.
Proof.
  rewrite !leb_spec, sub_spec, Prim2SF_zero.
  change (Prim2SF 1) with (S754_finite false 4503599627370496 (-52)).
  pose proof (Prim2SF_valid a) as Va. pose proof (Prim2SF_valid b) as Vb.
  unfold SF64sub.
  destruct (Prim2SF a) as [sa|sa| |sa ma ea];
    destruct (Prim2SF b) as [sb|sb| |sb mb eb];
    try destruct sa; try destruct sb;
    try (intros H1 H2 H3; discriminate H1 || discriminate H2 || discriminate H3
                          || reflexivity).
  intros _ H2 _. apply SFsub_finite_nonneg; assumption.
Qed.

End Binary64Differences.

Section MassSigns.
Variable L : SciLib.
Local Open Scope float_scope.

(** no element is above its successor *)
Fixpoint nondecreasingb (l : list float) : bool :=
  match l with
  | x :: ((y :: _) as l') => (x <=? y) && nondecreasingb l'
  | _ => true
  end.

Lemma nondecreasingb_nth (l : list float) :
  nondecreasingb l = true ->
  forall i, (S i < length l)%nat -> (nth i l 0 <=? nth (S i) l 0) = true.
Proof.
  induction l as [|x l IH]; intros H i Hi; [cbn in Hi; lia|].
  destruct l as [|y l]; [cbn in Hi; lia|].
  cbn [nondecreasingb] in H. apply andb_prop in H. destruct H as [Hxy Hl].
  destruct i as [|i]; [exact Hxy|].
  change (nth (S i) (x :: y :: l) 0) with (nth i (y :: l) 0).
  change (nth (S (S i)) (x :: y :: l) 0) with (nth (S i) (y :: l) 0).
  apply IH; [exact Hl|]. cbn [length] in *. lia.
Qed.

(** X9: when the values of the distribution function computed on the grid
    lie in [[0, 1]] and do not decrease along it, every returned mass is
    greater than or equal to zero (and so is not NaN), in both modes: neither
    the differencing nor the removal of the clay bins produces a negative
    mass. *)
Theorem returned_masses_are_not_negative
    (gs_mean gs_std rho_s clay_cutoff : float) (log_transform : bool) :
  let cdf := cdf_gs (N := F64 L) gs_mean gs_std log_transform in
  forallb (fun c => (0 <=? c) && (c <=? 1)) cdf = true ->
  nondecreasingb cdf = true ->
  forall i, (i < 600)%nat ->
    (0 <=? nth i (snd (generate_gs_distributions (N := F64 L)
                         gs_mean gs_std rho_s clay_cutoff log_transform)) 0)
    = true.
Proof.
  intros cdf Hrange Hmono i Hi.
  assert (Hlen : length cdf = 600%nat).
  { unfold cdf.
    change (length (cdf_gs (N := F64 L) gs_mean gs_std log_transform) = 600%nat).
    rewrite cdf_gs_length. apply log_grid_length. }
  assert (Hin : forall k, (k < 600)%nat ->
            (0 <=? nth k cdf 0) = true /\ (nth k cdf 0 <=? 1) = true).
  { intros k Hk. rewrite forallb_forall in Hrange.
    apply andb_prop. apply Hrange, nth_In. rewrite Hlen. exact Hk. }
  rewrite (generate_freq_nth (N := F64 L)) by (rewrite log_grid_length; exact Hi).
  f64.
  match goal with |- context [if ?c then _ else _] => destruct c end;
    [reflexivity|].
  assert (Hfreq := bin_frequencies_nth (N := F64 L) gs_mean gs_std
                     log_transform i 0).
  rewrite (log_grid_length L) in Hfreq. specialize (Hfreq Hi).
  assert (Hcdf : forall k, (k < 600)%nat ->
            norm_cdf (Numeric := F64 L)
              (nth k (gs_sim (N := F64 L) log_transform) 0) gs_mean gs_std
            = nth k cdf 0).
  { intros k Hk. symmetry. unfold cdf.
    apply (cdf_gs_nth (N := F64 L)). rewrite log_grid_length. exact Hk. }
  f64. rewrite Hfreq. destruct i as [|j].
  - rewrite (Hcdf 0%nat Hi). apply (Hin 0%nat), Hi.
  - rewrite (Hcdf (S j) Hi), (Hcdf j) by lia. f64. apply sub_nonneg.
    + apply (Hin j). lia.
    + apply (nondecreasingb_nth cdf Hmono). rewrite Hlen. exact Hi.
    + apply (Hin (S j)), Hi.
Qed.

End MassSigns.

Section MassSignWitnesses.
Local Open Scope float_scope.

(** X9 at the notebook's first sample, bin 200. *)
Lemma returned_masses_are_not_negative_witness :
  (0 <=? nth 200 (snd (generate_gs_distributions (N := F64 Reference.lib)
                         2e-6 2e-6 2650 4e-6 false)) 0) = true.
Proof.
  apply (returned_masses_are_not_negative Reference.lib
           2e-6 2e-6 2650 4e-6 false).
  - vm_compute. reflexivity.
  - vm_compute. reflexivity.
  - lia.
Defined.

End MassSignWitnesses.


(** ** The loop over the rows of the table (cell 12)

    [pd.read_csv] gives the table the index [0 .. n-1]; the loop reads the two
    grain-size columns of each row, which hold numbers, and writes the column
    [specific_surface_granular_fraction], which the first assignment
    creates.  A cell of that column that no assignment has reached is
    [None]. *)

Section Loop.
Context {N : Numeric}.

Record row : Type := {
  grain_size_mean : num;
  grain_size_stdev : num
}.

(** the two objects that the loop updates *)
Record loop_state : Type := {
  gs_freq_all : list ndarray;
  specific_surface_granular_fraction : list (option num)
}.

(** [df.loc[ix, 'specific_surface_granular_fraction'] = v], for a label [ix]
    of the index *)
Fixpoint loc_set (ix : nat) (v : num) (column : list (option num))
  : list (option num) :=
  match column, ix with
  | [], _ => []
  | _ :: rest, O => Some v :: rest
  | c :: rest, S ix' => c :: loc_set ix' v rest
  end.

(** the iterations from label [ix] on, over the rows that remain; the second
    component is the exception that ended the loop, if any *)
Fixpoint loop_from (rho_s clay_cutoff : num) (log_transform : bool)
    (ix : nat) (rows : list row) (st : loop_state)
  : loop_state * option exn :=
  match rows with
  | [] => (st, None)
  | r :: rows' =>
      let '(bins_gs, freq_gs) :=
        generate_gs_distributions (grain_size_mean r) (grain_size_stdev r)
          rho_s clay_cutoff log_transform in
      let appended := gs_freq_all st ++ [freq_gs] in
      match calculate_specific_surface_discrete bins_gs freq_gs rho_s with
      | Raise e =>
          ({| gs_freq_all := appended;
              specific_surface_granular_fraction :=
                specific_surface_granular_fraction st |}, Some e)
      | Ok ss =>
          loop_from rho_s clay_cutoff log_transform (S ix) rows'
            {| gs_freq_all := appended;
               specific_surface_granular_fraction :=
                 loc_set ix ss (specific_surface_granular_fraction st) |}
      end
  end.

(** cell 12 *)
Definition cell_12 (df : list row) (rho_s clay_cutoff : num)
    (log_transform : bool) : loop_state * option exn :=
  loop_from rho_s clay_cutoff log_transform 0 df
    {| gs_freq_all := [];
       specific_surface_granular_fraction := repeat None (length df) |}.

Lemma loc_set_at (done rest : list (option num)) (c : option num) (v : num) :
  loc_set (length done) v (done ++ c :: rest) = done ++ Some v :: rest.
Proof.
  induction done as [|d done IH]; cbn [loc_set length app]; [reflexivity|].
  rewrite IH. reflexivity.
Qed.

End Loop.

Section LoopF64.
Variable L : SciLib.
Local Open Scope float_scope.

(** the state with the given [gs_freq_all] and output column *)
Abbreviation state := (Build_loop_state (N := F64 L)).

(** the masses and the surface of one row *)
Definition row_masses (rho_s clay_cutoff : float) (log_transform : bool)
    (r : row (N := F64 L)) : list float :=
  snd (generate_gs_distributions (N := F64 L)
         (grain_size_mean r) (grain_size_stdev r)
         rho_s clay_cutoff log_transform).

Definition row_surface (rho_s clay_cutoff : float) (log_transform : bool)
    (r : row (N := F64 L)) : float :=
  let out := generate_gs_distributions (N := F64 L)
               (grain_size_mean r) (grain_size_stdev r)
               rho_s clay_cutoff log_transform in
  6 / rho_s * lib_sum L (zip_with PrimFloat.div (snd out) (fst out)).

Lemma loop_from_numeric (rho_s clay_cutoff : float) (log_transform : bool) :
  (rho_s =? 0) = false ->
  forall (rows : list (row (N := F64 L))) (done : list (option float))
         (fr : list (list float)) (ix : nat),
    ix = length done ->
    loop_from (N := F64 L) rho_s clay_cutoff log_transform ix rows
      (state fr (done ++ repeat None (length rows)))
    = (state (fr ++ map (row_masses rho_s clay_cutoff log_transform) rows)
             (done ++ map (fun r => Some (row_surface rho_s clay_cutoff
                                            log_transform r)) rows),
       None).
Proof.
  intros Hrho rows.
  induction rows as [|r rows IH]; intros done fr ix Hix.
  - cbn [loop_from map length repeat]. rewrite !app_nil_r. reflexivity.
  - cbn [loop_from map length repeat].
    cbn [gs_freq_all specific_surface_granular_fraction].
    unfold row_masses at 1. unfold row_surface at 1.
    pose proof (generate_freq_length (N := F64 L)
                  (grain_size_mean r) (grain_size_stdev r)
                  rho_s clay_cutoff log_transform) as Hf.
    pose proof (generate_sizes (N := F64 L)
                  (grain_size_mean r) (grain_size_stdev r)
                  rho_s clay_cutoff log_transform) as Hb.
    destruct (generate_gs_distributions (N := F64 L)
                (grain_size_mean r) (grain_size_stdev r)
                rho_s clay_cutoff log_transform) as [bins_gs freq_gs].
    cbn [fst snd] in *.
    assert (Hlen : length freq_gs = length bins_gs).
    { rewrite Hf, Hb, bin_sizes_length. reflexivity. }
    rewrite (integrator_value L bins_gs freq_gs rho_s Hlen Hrho).
    subst ix. rewrite (loc_set_at (N := F64 L)).
    set (v := 6 / rho_s * lib_sum L (zip_with PrimFloat.div freq_gs bins_gs)).
    specialize (IH (done ++ [Some v]) (fr ++ [freq_gs]) (S (length done))).
    rewrite <- !app_assoc in IH. cbn [app] in IH.
    apply IH. rewrite length_app. cbn [length]. lia.
Qed.

(** X10: with a density that is not a zero, the loop ends without an exception
    on every table of numbers: [gs_freq_all] holds the masses of the rows in
    the order of the index, and every row's cell holds the surface computed
    from that row alone. *)
Theorem loop_fills_every_row
    (df : list (row (N := F64 L))) (rho_s clay_cutoff : float)
    (log_transform : bool) :
  (rho_s =? 0) = false ->
  cell_12 (N := F64 L) df rho_s clay_cutoff log_transform
  = (state (map (row_masses rho_s clay_cutoff log_transform) df)
           (map (fun r => Some (row_surface rho_s clay_cutoff log_transform r))
                df),
     None).
Proof.
  intros Hrho. unfold cell_12.
  apply (loop_from_numeric rho_s clay_cutoff log_transform Hrho df [] [] 0%nat).
  reflexivity.
Qed.

Lemma cell_12_zero_density
    (r : row (N := F64 L)) (df : list (row (N := F64 L)))
    (rho_s clay_cutoff : float) (log_transform : bool) :
  (rho_s =? 0) = true ->
  cell_12 (N := F64 L) (r :: df) rho_s clay_cutoff log_transform
  = (state [row_masses rho_s clay_cutoff log_transform r]
           (repeat None (S (length df))),
     Some ZeroDivisionError).
Proof.
  intros Hrho.
  unfold cell_12. cbn [loop_from].
  cbn [gs_freq_all specific_surface_granular_fraction app].
  unfold row_masses.
  destruct (generate_gs_distributions (N := F64 L)
              (grain_size_mean r) (grain_size_stdev r)
              rho_s clay_cutoff log_transform) as [bins_gs freq_gs].
  unfold calculate_specific_surface_discrete, py_float_div; f64.
  rewrite Hrho. reflexivity.
Qed.

(** X11: with a zero density and a table that is not empty, the loop stops in
    its first iteration with [ZeroDivisionError]: the masses of the first row
    have been appended to [gs_freq_all] and no cell has been written. *)
Theorem loop_stops_on_zero_density
    (df : list (row (N := F64 L))) (rho_s clay_cutoff : float)
    (log_transform : bool) :
  (rho_s =? 0) = true -> df <> [] ->
  cell_12 (N := F64 L) df rho_s clay_cutoff log_transform
  = (state (map (row_masses rho_s clay_cutoff log_transform) (firstn 1 df))
           (repeat None (length df)),
     Some ZeroDivisionError).
Proof.
  intros Hrho Hdf. destruct df as [|r df]; [congruence|].
  apply cell_12_zero_density, Hrho.
Qed.

Lemma row_masses_length
    (rho_s clay_cutoff : float) (log_transform : bool) (r : row (N := F64 L)) :
  length (row_masses rho_s clay_cutoff log_transform r) = 600%nat.
Proof.
  unfold row_masses.
  change (length (snd (generate_gs_distributions (N := F64 L)
                         (grain_size_mean r) (grain_size_stdev r)
                         rho_s clay_cutoff log_transform)) = 600%nat).
  rewrite generate_freq_length. apply log_grid_length.
Qed.

(** X12: whether the loop ends or raises, every array that it has appended to
    [gs_freq_all] has 600 entries, the length of the array of sizes against
    which cell 17 plots it. *)
Theorem appended_masses_have_600_entries
    (df : list (row (N := F64 L))) (rho_s clay_cutoff : float)
    (log_transform : bool) :
  Forall (fun freq_gs : list float => length freq_gs = 600%nat)
         (gs_freq_all
            (fst (cell_12 (N := F64 L) df rho_s clay_cutoff log_transform))).
Proof.
  destruct (rho_s =? 0) eqn:Hrho.
  - destruct df as [|r df]; [constructor|].
    rewrite (cell_12_zero_density r df rho_s clay_cutoff log_transform Hrho).
    cbn [fst gs_freq_all]. constructor; [apply row_masses_length|constructor].
  - assert (Hloop :
      cell_12 (N := F64 L) df rho_s clay_cutoff log_transform
      = (state (map (row_masses rho_s clay_cutoff log_transform) df)
               (map (fun r => Some (row_surface rho_s clay_cutoff
                                      log_transform r)) df),
         None))
      by exact (loop_from_numeric rho_s clay_cutoff log_transform Hrho
                  df [] [] 0%nat eq_refl).
    rewrite Hloop. cbn [fst gs_freq_all].
    apply Forall_forall. intros freq_gs Hin.
    apply in_map_iff in Hin. destruct Hin as [r [<- _]].
    apply row_masses_length.
Qed.

Lemma loop_from_ignores_cutoff
    (rho_s clay_cutoff clay_cutoff' : float) (log_transform : bool)
    (rows : list (row (N := F64 L))) :
  forall ix st,
    loop_from (N := F64 L) rho_s clay_cutoff log_transform ix rows st
    = loop_from (N := F64 L) rho_s clay_cutoff' log_transform ix rows st.
Proof.
  induction rows as [|r rows IH]; intros ix st; cbn [loop_from];
    [reflexivity|].
  change (generate_gs_distributions (N := F64 L)
            (grain_size_mean r) (grain_size_stdev r)
            rho_s clay_cutoff log_transform)
    with (generate_gs_distributions (N := F64 L)
            (grain_size_mean r) (grain_size_stdev r)
            rho_s clay_cutoff' log_transform).
  destruct (generate_gs_distributions (N := F64 L)
              (grain_size_mean r) (grain_size_stdev r)
              rho_s clay_cutoff' log_transform) as [bins_gs freq_gs].
  destruct (calculate_specific_surface_discrete (N := F64 L)
              bins_gs freq_gs rho_s) as [ss|e]; [apply IH | reflexivity].
Qed.

(** X13: the setting [clay_cutoff] of the notebook has no effect on what the
    loop computes: for any two cutoffs the arrays appended, the cells written
    and the exception raised, if any, are the same. *)
Theorem clay_cutoff_has_no_effect
    (df : list (row (N := F64 L))) (rho_s clay_cutoff clay_cutoff' : float)
    (log_transform : bool) :
  cell_12 (N := F64 L) df rho_s clay_cutoff log_transform
  = cell_12 (N := F64 L) df rho_s clay_cutoff' log_transform.
Proof. unfold cell_12. apply loop_from_ignores_cutoff. Qed.

End LoopF64.

Section LoopWitnesses.
Local Open Scope float_scope.

(** X10 on two rows of the size of the notebook's data. *)
Lemma loop_fills_every_row_witness :
  let df := [ Build_row (N := F64 Reference.lib) 2e-6 2e-6;
              Build_row (N := F64 Reference.lib) 5e-5 1e-5 ] in
  cell_12 (N := F64 Reference.lib) df 2650 4e-6 false
  = (Build_loop_state (N := F64 Reference.lib)
       (map (row_masses Reference.lib 2650 4e-6 false) df)
       (map (fun r => Some (row_surface Reference.lib 2650 4e-6 false r)) df),
     None).
Proof.
  intros df.
  apply (loop_fills_every_row Reference.lib df 2650 4e-6 false).
  reflexivity.
Defined.

(** X11 on the same rows. *)
Lemma loop_stops_on_zero_density_witness :
  let df := [ Build_row (N := F64 Reference.lib) 2e-6 2e-6;
              Build_row (N := F64 Reference.lib) 5e-5 1e-5 ] in
  cell_12 (N := F64 Reference.lib) df 0 4e-6 false
  = (Build_loop_state (N := F64 Reference.lib)
       (map (row_masses Reference.lib 0 4e-6 false) (firstn 1 df))
       (repeat None (length df)),
     Some ZeroDivisionError).
Proof.
  intros df.
  apply (loop_stops_on_zero_density Reference.lib df 0 4e-6 false).
  - reflexivity.
  - discriminate.
Defined.

End LoopWitnesses.


(** ** The names of the files written (cells 14 and 17)

    A Python [str] is modelled by a [string], one character per [ascii]; the
    paths are read as POSIX paths, with [/] as separator. *)

Section FileNames.
Import Ascii.
Local Open Scope string_scope.

(** [s[:-4]]: all but the last four characters, and the empty string when
    there are no more than four *)
Definition drop_last_4 (s : string) : string :=
  substring 0 (String.length s - 4) s.

(** cell 14: [fn_out = filename[:-4] + '_with_spec_surf.csv'] *)
Definition fn_out (filename : string) : string :=
  drop_last_4 filename ++ "_with_spec_surf.csv".

Fixpoint contains_slash (s : string) : bool :=
  match s with
  | EmptyString => false
  | String c s' => Ascii.eqb c "/"%char || contains_slash s'
  end.

(** [os.path.split(p)[-1]]: what follows the last slash, and all of [p] when
    it has none *)
Fixpoint path_tail (p : string) : string :=
  match p with
  | EmptyString => EmptyString
  | String c p' =>
      if contains_slash p' then path_tail p'
      else if Ascii.eqb c "/"%char then p' else p
  end.

(** [os.path.join(a, b)] *)
Definition path_join (a b : string) : string :=
  match b with
  | String "/"%char _ => b
  | _ =>
      match a with
      | EmptyString => a ++ b
      | _ => if Ascii.eqb (last (list_ascii_of_string a) "/"%char) "/"%char
             then a ++ b else a ++ "/" ++ b
      end
  end.

(** cell 17:
    [fn1 = os.path.split(filename)[-1][:-4]],
    [fn2 = fn1 + '_grain_sizes_and_spec_surfaces.png'],
    [fig_fn = os.path.join('figs', fn2)] *)
Definition fn2 (filename : string) : string :=
  drop_last_4 (path_tail filename) ++ "_grain_sizes_and_spec_surfaces.png".

Definition fig_fn (filename : string) : string :=
  path_join "figs" (fn2 filename).

Lemma string_length_app (s t : string) :
  String.length (s ++ t) = (String.length s + String.length t)%nat.
Proof. induction s as [|c s IH]; cbn; [reflexivity | rewrite IH; reflexivity]. Qed.

Lemma substring_prefix (s t : string) :
  substring 0 (String.length s) (s ++ t) = s.
Proof.
  induction s as [|c s IH]; cbn.
  - destruct t; reflexivity.
  - rewrite IH. reflexivity.
Qed.

Lemma substring_0_length (n : nat) (s : string) :
  String.length (substring 0 n s) = Nat.min n (String.length s).
Proof.
  revert n; induction s as [|c s IH]; intros [|n]; cbn; try reflexivity.
  rewrite IH. reflexivity.
Qed.

Lemma drop_last_4_app (stem ext : string) :
  String.length ext = 4%nat -> drop_last_4 (stem ++ ext) = stem.
Proof.
  intros H. unfold drop_last_4.
  rewrite string_length_app, H.
  replace (String.length stem + 4 - 4)%nat with (String.length stem) by lia.
  apply substring_prefix.
Qed.

Lemma contains_slash_app (s t : string) :
  contains_slash (s ++ t) = contains_slash s || contains_slash t.
Proof.
  induction s as [|c s IH]; cbn; [reflexivity|].
  rewrite IH, orb_assoc. reflexivity.
Qed.

Lemma contains_slash_substring (n : nat) (s : string) :
  contains_slash s = false -> contains_slash (substring 0 n s) = false.
Proof.
  revert n; induction s as [|c s IH]; intros [|n] H; cbn in *;
    try reflexivity.
  apply orb_false_elim in H. destruct H as [Hc Hs].
  rewrite Hc, (IH n Hs). reflexivity.
Qed.

Lemma path_tail_no_slash (p : string) : contains_slash (path_tail p) = false.
Proof.
  induction p as [|c p IH]; cbn [path_tail]; [reflexivity|].
  destruct (contains_slash p) eqn:Hp; [exact IH|].
  destruct (Ascii.eqb c "/"%char) eqn:Hc; [exact Hp|].
  cbn [contains_slash]. rewrite Hc, Hp. reflexivity.
Qed.

(** X14: when the name of the data file ends in an extension of four
    characters, such as [.csv], the name of the file written is the name
    without that extension followed by [_with_spec_surf.csv]. *)
Theorem fn_out_replaces_extension (stem ext : string) :
  String.length ext = 4%nat ->
  fn_out (stem ++ ext) = stem ++ "_with_spec_surf.csv".
Proof.
  intros H. unfold fn_out. rewrite (drop_last_4_app stem ext H). reflexivity.
Qed.

(** X15: the name of the file written is never the name of the data file, so
    [df.to_csv] does not overwrite the file that was read. *)
Theorem fn_out_is_not_the_input (filename : string) :
  fn_out filename <> filename.
Proof.
  intros H. apply (f_equal String.length) in H.
  unfold fn_out, drop_last_4 in H.
  rewrite string_length_app, substring_0_length in H.
  cbn [String.length] in H. lia.
Qed.

Lemma fn2_no_slash (filename : string) : contains_slash (fn2 filename) = false.
Proof.
  unfold fn2, drop_last_4. rewrite contains_slash_app.
  rewrite contains_slash_substring by apply path_tail_no_slash.
  reflexivity.
Qed.

Lemma path_join_figs (name : string) :
  contains_slash name = false -> path_join "figs" name = "figs/" ++ name.
Proof.
  intros Hno. unfold path_join.
  destruct name as [|c s]; [reflexivity|].
  cbn [contains_slash] in Hno. apply orb_false_elim in Hno.
  destruct Hno as [Hc _].
  destruct c as [b0 b1 b2 b3 b4 b5 b6 b7].
  destruct b0, b1, b2, b3, b4, b5, b6, b7; try reflexivity.
  discriminate Hc.
Qed.

Lemma path_tail_app (dir name : string) :
  contains_slash name = false -> path_tail (dir ++ "/" ++ name) = name.
Proof.
  intros Hname.
  induction dir as [|c dir IH]; cbn [append path_tail].
  - rewrite Hname. reflexivity.
  - rewrite contains_slash_app. cbn [contains_slash Ascii.eqb].
    rewrite orb_true_r. exact IH.
Qed.

(** X16: the figure is saved directly in the directory [figs], whatever the
    name of the data file: its path is [figs/] followed by a name without a
    slash. *)
Theorem fig_fn_is_in_figs (filename : string) :
  fig_fn filename = "figs/" ++ fn2 filename /\
  contains_slash (fn2 filename) = false.
Proof.
  split; [|apply fn2_no_slash].
  apply path_join_figs, fn2_no_slash.
Qed.

(** X17: for a data file [dir/stem.ext] with an extension of four characters,
    the figure is [figs/stem_grain_sizes_and_spec_surfaces.png]: the directory
    of the data file and its extension are dropped. *)
Theorem fig_fn_drops_directory_and_extension (dir stem ext : string) :
  contains_slash stem = false -> contains_slash ext = false ->
  String.length ext = 4%nat ->
  fig_fn (dir ++ "/" ++ stem ++ ext)
  = "figs/" ++ stem ++ "_grain_sizes_and_spec_surfaces.png".
Proof.
  intros Hstem Hext Hlen. unfold fig_fn.
  rewrite path_join_figs by apply fn2_no_slash.
  unfold fn2. rewrite path_tail_app
    by (rewrite contains_slash_app, Hstem, Hext; reflexivity).
  rewrite (drop_last_4_app stem ext Hlen). reflexivity.
Qed.

End FileNames.

Section FileNameWitnesses.
Local Open Scope string_scope.

(** X14 at the file name of the notebook. *)
Lemma fn_out_replaces_extension_witness :
  fn_out "data/example_dataset_seafloor_sediments.csv"
  = "data/example_dataset_seafloor_sediments_with_spec_surf.csv".
Proof.
  apply (fn_out_replaces_extension
           "data/example_dataset_seafloor_sediments" ".csv").
  reflexivity.
Defined.

(** X17 at the file name of the notebook. *)
Lemma fig_fn_drops_directory_and_extension_witness :
  fig_fn "data/example_dataset_seafloor_sediments.csv"
  = "figs/example_dataset_seafloor_sediments_grain_sizes_and_spec_surfaces.png".
Proof.
  apply (fig_fn_drops_directory_and_extension
           "data" "example_dataset_seafloor_sediments" ".csv");
    reflexivity.
Defined.

End FileNameWitnesses.
